(** * NFCHandler: the wallet card-sharing modal

    A shallow embedding of [src/app/(tabs)/wallet/NFCHandler.tsx].

    The component keeps two pieces of React state ([cards] and
    [selectedCard]), talks to three collaborators (the signed-in identity
    and the remote document store, the NFC manager, the host screen) and
    reports to the user through [Alert.alert].  Handlers are embedded as
    computations of a small state/exception/trace monad: the trace lists
    the calls made to the collaborators, in order.

    JavaScript strings are sequences of UTF-16 code units and are kept as
    such ([list N]); [JSON.stringify], which the write path applies to the
    selected card, is embedded on that representation. *)

From Stdlib Require Import List NArith Bool String Ascii Lia Permutation.
Import ListNotations.

Local Open Scope N_scope.

(* ================================================================= *)
(** ** JavaScript strings *)

Module JS.

(** A string value: its UTF-16 code units. *)
Definition jsstring := list N.

(** The string value of an ASCII literal of the source. *)
Definition lit (s : string) : jsstring :=
  map N_of_ascii (list_ascii_of_string s).

(** [a === b] on strings. *)
Fixpoint jsstring_eqb (a b : jsstring) : bool :=
  match a, b with
  | [], [] => true
  | x :: a', y :: b' => (x =? y) && jsstring_eqb a' b'
  | _, _ => false
  end.

(** Property values that occur in a card object: a string, or [undefined]
    (an optional property that was spelled out without a value). *)
Inductive jsval :=
| VUndefined
| VString (s : jsstring).

(** An ordinary object: its own enumerable string-keyed properties in
    property order.  A well-formed object lists every key once. *)
Definition obj := list (jsstring * jsval).

Definition keys (o : obj) : list jsstring := map fst o.

Fixpoint obj_get (k : jsstring) (o : obj) : option jsval :=
  match o with
  | [] => None
  | (k', v) :: o' => if jsstring_eqb k k' then Some v else obj_get k o'
  end.

(** [o[k] = v] / CreateDataProperty: an existing key keeps its place and
    takes the new value, a new key goes last. *)
Fixpoint obj_set (k : jsstring) (v : jsval) (o : obj) : obj :=
  match o with
  | [] => [(k, v)]
  | (k', v') :: o' =>
      if jsstring_eqb k k' then (k', v) :: o' else (k', v') :: obj_set k v o'
  end.

End JS.

Import JS.

(* ================================================================= *)
(** ** JSON.stringify on card objects (ECMA-262, 25.5.2) *)

Module JSON.

Definition is_high_surrogate (c : N) : bool := (0xD800 <=? c) && (c <=? 0xDBFF).
Definition is_low_surrogate (c : N) : bool := (0xDC00 <=? c) && (c <=? 0xDFFF).

(** A lowercase hexadecimal digit, as a code unit. *)
Definition hex_digit (d : N) : N := if d <? 10 then 48 + d else 87 + d.

(** UnicodeEscape: [\uXXXX], four lowercase hexadecimal digits. *)
Definition UnicodeEscape (c : N) : jsstring :=
  [92; 117;
   hex_digit (c / 4096 mod 16); hex_digit (c / 256 mod 16);
   hex_digit (c / 16 mod 16); hex_digit (c mod 16)].

(** One code point that is not a surrogate pair (Table 75 and the two
    escaping conditions of QuoteJSONString). *)
Definition quote_unit (c : N) : jsstring :=
  if c =? 8 then [92; 98]
  else if c =? 9 then [92; 116]
  else if c =? 10 then [92; 110]
  else if c =? 12 then [92; 102]
  else if c =? 13 then [92; 114]
  else if c =? 34 then [92; 34]
  else if c =? 92 then [92; 92]
  else if (c <? 32) || is_high_surrogate c || is_low_surrogate c
       then UnicodeEscape c
  else [c].

(** The body of QuoteJSONString: the string is read code point by code
    point, so a high surrogate followed by a low one is copied as a pair
    and any other surrogate is escaped. *)
Fixpoint quote_body (s : jsstring) : jsstring :=
  match s with
  | [] => []
  | c :: rest =>
      if is_high_surrogate c then
        match rest with
        | d :: rest' =>
            if is_low_surrogate d then c :: d :: quote_body rest'
            else quote_unit c ++ quote_body rest
        | [] => quote_unit c
        end
      else quote_unit c ++ quote_body rest
  end.

Definition QuoteJSONString (s : jsstring) : jsstring :=
  34 :: quote_body s ++ [34].

(** SerializeJSONProperty on the values of a card object: [undefined]
    yields no text, a string is quoted. *)
Definition SerializeJSONProperty (v : jsval) : option jsstring :=
  match v with
  | VUndefined => None
  | VString s => Some (QuoteJSONString s)
  end.

(** The members of SerializeJSONObject (no gap, no indent): properties
    whose value serializes to nothing are left out. *)
Fixpoint members (o : obj) : list jsstring :=
  match o with
  | [] => []
  | (k, v) :: o' =>
      match SerializeJSONProperty v with
      | None => members o'
      | Some t => (QuoteJSONString k ++ 58 :: t) :: members o'
      end
  end.

Fixpoint join_comma (ms : list jsstring) : jsstring :=
  match ms with
  | [] => []
  | [m] => m
  | m :: ms' => m ++ 44 :: join_comma ms'
  end.

Definition SerializeJSONObject (o : obj) : jsstring :=
  123 :: join_comma (members o) ++ [125].

(** [JSON.stringify(o)] for an object argument. *)
Definition stringify (o : obj) : jsstring := SerializeJSONObject o.

(* ----------------------------------------------------------------- *)
(** *** The inverse parser *)

(** Modelled from the spec: the inverse parser.  The repository has no
    read path; the spec asks that "the receiving side is expected to
    parse that same representation back into a Card".  The parser below
    is [JSON.parse] (ECMA-404 grammar) restricted to what a card payload
    is: one object whose member values are strings.  Insignificant white
    space is accepted between tokens, every escape of the grammar is
    accepted inside strings, unescaped control characters are rejected,
    and a repeated key keeps its first place and takes the last value. *)
Definition is_ws (c : N) : bool :=
  (c =? 32) || (c =? 9) || (c =? 10) || (c =? 13).

Fixpoint skip_ws (inp : jsstring) : jsstring :=
  match inp with
  | c :: rest => if is_ws c then skip_ws rest else inp
  | [] => []
  end.

Definition hex_value (c : N) : option N :=
  if (48 <=? c) && (c <=? 57) then Some (c - 48)
  else if (97 <=? c) && (c <=? 102) then Some (c - 87)
  else if (65 <=? c) && (c <=? 70) then Some (c - 55)
  else None.

Definition hex4 (a b c d : N) : option N :=
  match hex_value a, hex_value b, hex_value c, hex_value d with
  | Some x, Some y, Some z, Some w => Some (((x * 16 + y) * 16 + z) * 16 + w)
  | _, _, _, _ => None
  end.

Definition simple_escape (e : N) : option N :=
  if e =? 34 then Some 34
  else if e =? 92 then Some 92
  else if e =? 47 then Some 47
  else if e =? 98 then Some 8
  else if e =? 102 then Some 12
  else if e =? 110 then Some 10
  else if e =? 114 then Some 13
  else if e =? 116 then Some 9
  else None.

Definition cons_fst (c : N) (r : option (jsstring * jsstring)) :=
  match r with
  | Some (s, rest) => Some (c :: s, rest)
  | None => None
  end.

(** The characters of a string after its opening quote, up to and
    including the closing quote; returns the string value and what
    follows. *)
Fixpoint parse_chars (inp : jsstring) : option (jsstring * jsstring) :=
  match inp with
  | [] => None
  | c :: rest =>
      if c =? 34 then Some ([], rest)
      else if c =? 92 then
        match rest with
        | [] => None
        | e :: rest1 =>
            if e =? 117 then
              match rest1 with
              | h1 :: h2 :: h3 :: h4 :: rest2 =>
                  match hex4 h1 h2 h3 h4 with
                  | Some u => cons_fst u (parse_chars rest2)
                  | None => None
                  end
              | _ => None
              end
            else
              match simple_escape e with
              | Some u => cons_fst u (parse_chars rest1)
              | None => None
              end
        end
      else if c <? 32 then None
      else cons_fst c (parse_chars rest)
  end.

Definition parse_string (inp : jsstring) : option (jsstring * jsstring) :=
  match inp with
  | 34 :: rest => parse_chars rest
  | _ => None
  end.

(** One member [string : string]. *)
Definition parse_member (inp : jsstring)
  : option (jsstring * jsstring * jsstring) :=
  match parse_string (skip_ws inp) with
  | None => None
  | Some (k, r1) =>
      match skip_ws r1 with
      | 58 :: r2 =>
          match parse_string (skip_ws r2) with
          | Some (v, r3) => Some (k, v, skip_ws r3)
          | None => None
          end
      | _ => None
      end
  end.

(** The members after the opening brace, up to and including the closing
    one.  Every member consumes input, so the length of the input is
    fuel enough. *)
Fixpoint parse_members (fuel : nat) (acc : obj) (inp : jsstring)
  : option (obj * jsstring) :=
  match fuel with
  | O => None
  | S fuel' =>
      match parse_member inp with
      | None => None
      | Some (k, v, r) =>
          let acc' := obj_set k (VString v) acc in
          match r with
          | 44 :: r' => parse_members fuel' acc' r'
          | 125 :: r' => Some (acc', r')
          | _ => None
          end
      end
  end.

Definition parse_object (inp : jsstring) : option (obj * jsstring) :=
  match skip_ws inp with
  | 123 :: r =>
      match skip_ws r with
      | 125 :: r' => Some ([], r')
      | r1 => parse_members (List.length r1) [] r1
      end
  | _ => None
  end.

(** The whole text must be one object. *)
Definition parse (text : jsstring) : option obj :=
  match parse_object text with
  | Some (o, r) => match skip_ws r with [] => Some o | _ => None end
  | None => None
  end.

End JSON.

(* ================================================================= *)
(** ** Cards *)

(** [type: 'Student' | 'Work' | 'Personal'] *)
Inductive CardType := Student | Work | Personal.

(** [interface CardData] *)
Record CardData := {
  id : jsstring;
  firstName : jsstring;
  lastName : jsstring;
  type : CardType;
  phone : jsstring;
  workNumber : option jsstring
}.

Definition type_name (t : CardType) : jsstring :=
  match t with
  | Student => lit "Student"
  | Work => lit "Work"
  | Personal => lit "Personal"
  end.

(** The own properties of a card object, in the order of the interface;
    an absent [workNumber] is no property at all. *)
Definition card_props (c : CardData) : obj :=
  [ (lit "id", VString (id c));
    (lit "firstName", VString (firstName c));
    (lit "lastName", VString (lastName c));
    (lit "type", VString (type_name (type c)));
    (lit "phone", VString (phone c)) ]
  ++ match workNumber c with
     | Some w => [(lit "workNumber", VString w)]
     | None => []
     end.

(** [{ ...data, id: key }] *)
Definition spread_with_id (data : CardData) (key : jsstring) : CardData :=
  {| id := key;
     firstName := firstName data;
     lastName := lastName data;
     type := type data;
     phone := phone data;
     workNumber := workNumber data |}.

Definition get_string (k : jsstring) (o : obj) : option jsstring :=
  match obj_get k o with
  | Some (VString s) => Some s
  | _ => None
  end.

Definition type_of_name (s : jsstring) : option CardType :=
  if jsstring_eqb s (lit "Student") then Some Student
  else if jsstring_eqb s (lit "Work") then Some Work
  else if jsstring_eqb s (lit "Personal") then Some Personal
  else None.

(** Modelled from the spec: the last step of the inverse parser, "fields
    deserialize into a Card".  The five required fields must be present
    as strings and the category must be one of the closed set; the
    secondary phone number is optional. *)
Definition card_of_obj (o : obj) : option CardData :=
  match get_string (lit "id") o, get_string (lit "firstName") o,
        get_string (lit "lastName") o, get_string (lit "type") o,
        get_string (lit "phone") o with
  | Some i, Some f, Some l, Some t, Some p =>
      match type_of_name t with
      | Some ty =>
          Some {| id := i; firstName := f; lastName := l; type := ty;
                  phone := p; workNumber := get_string (lit "workNumber") o |}
      | None => None
      end
  | _, _, _, _, _ => None
  end.

(** The payload text of the write path, [JSON.stringify(selectedCard)],
    and its inverse. *)
Definition encode_card (c : CardData) : jsstring :=
  JSON.stringify (card_props c).

Definition decode_card (text : jsstring) : option CardData :=
  match JSON.parse text with
  | Some o => card_of_obj o
  | None => None
  end.

(* ================================================================= *)
(** ** Collaborators and effects *)

(** A thrown value / the reason of a rejected promise. *)
Inductive Exn := Error (message : string).

(** How a call ends: it returns (an awaited promise fulfils) or it throws
    (an awaited promise rejects). *)
Inductive outcome (A : Type) :=
| Returned (a : A)
| Thrown (ex : Exn).
Arguments Returned {A} a.
Arguments Thrown {A} ex.

Definition Bytes := list N.

Inductive NfcTech := Ndef_tech.

(** What [getTag] yields when a peer is in range. *)
Record TagEvent := { tag_id : Bytes }.

(** Modelled from the spec: [Ndef.textRecord] belongs to the radio
    abstraction library, which is not part of the repository.  A text
    record is kept as the text it carries ("a data-exchange record format
    carrying a plain text payload"). *)
Inductive NdefRecord := TextRecord (content : jsstring).

(** [auth.currentUser] *)
Record User := { uid : jsstring }.

(** A document of the [cards] sub-collection: [doc.id] and [doc.data()],
    the latter at the type the source casts it to. *)
Record QueryDocumentSnapshot := { doc_id : jsstring; doc_data : CardData }.

(** The calls the component makes to its collaborators. *)
Inductive Call :=
| getDocs (wallet : jsstring)
| NfcManager_start
| NfcManager_requestTechnology (tech : NfcTech)
| NfcManager_getTag
| NfcManager_cancelTechnologyRequest
| Ndef_encodeMessage (message : list NdefRecord)
| NfcManager_transceive (bytes : Bytes)
| Alert_alert (title message : string)
| console_warn (ex : Exn)
| console_error (label : string) (error : Exn)
| onCardSelected (card : CardData)
| onClose.

(** What the collaborators answer.  The component cannot influence any of
    it, so every property is stated for all environments. *)
Record Env := {
  currentUser : option User;
  getDocs_answer : jsstring -> outcome (list QueryDocumentSnapshot);
  start_answer : outcome unit;
  requestTechnology_answer : outcome unit;
  getTag_answer : outcome (option TagEvent);
  encodeMessage_answer : list NdefRecord -> outcome (option Bytes);
  transceive_answer : Bytes -> outcome Bytes
}.

(** The two [useState] cells and the reader session held by the NFC
    manager on the component's behalf. *)
Record World := {
  cards : list CardData;
  selectedCard : option CardData;
  session : bool
}.

(** [useState<CardData[]>([])], [useState<CardData | null>(null)], no
    session. *)
Definition initial : World :=
  {| cards := []; selectedCard := None; session := false |}.

(** The controller states of the design that outlive a handler. *)
Inductive ControllerState := Idle | Listening.

Definition controller_state (w : World) : ControllerState :=
  if session w then Listening else Idle.

(** Computations: from a world to an outcome, the next world and the
    calls made. *)
Definition M (A : Type) : Type := World -> outcome A * World * list Call.

Definition ret {A} (a : A) : M A := fun w => (Returned a, w, []).

Definition bind {A B} (m : M A) (k : A -> M B) : M B :=
  fun w =>
    match m w with
    | (Returned a, w1, t1) =>
        match k a w1 with
        | (r, w2, t2) => (r, w2, t1 ++ t2)
        end
    | (Thrown ex, w1, t1) => (Thrown ex, w1, t1)
    end.

Notation "x <- m ;; k" := (bind m (fun x => k))
  (at level 61, m at next level, right associativity).
Notation "m ;; k" := (bind m (fun _ => k))
  (at level 61, right associativity).

Definition call (c : Call) : M unit := fun w => (Returned tt, w, [c]).

(** A call whose result the environment decides. *)
Definition ask {A} (c : Call) (answer : outcome A) : M A :=
  fun w => (answer, w, [c]).

(** [try { body } catch (ex) { handler ex }] *)
Definition try_catch {A} (body : M A) (handler : Exn -> M A) : M A :=
  fun w =>
    match body w with
    | (Returned a, w1, t1) => (Returned a, w1, t1)
    | (Thrown ex, w1, t1) =>
        match handler ex w1 with
        | (r, w2, t2) => (r, w2, t1 ++ t2)
        end
    end.

(** [try { body } finally { fin }]: [fin] runs on every exit of [body];
    the outcome is that of [body] unless [fin] itself throws. *)
Definition try_finally {A} (body : M A) (fin : M unit) : M A :=
  fun w =>
    match body w with
    | (r, w1, t1) =>
        match fin w1 with
        | (Returned _, w2, t2) => (r, w2, t1 ++ t2)
        | (Thrown ex, w2, t2) => (Thrown ex, w2, t1 ++ t2)
        end
    end.

(** An [async] function called without [await]: the call is made, its
    promise is dropped, a rejection reaches nobody. *)
Definition unawaited {A} (m : M A) : M unit :=
  fun w => match m w with (_, w1, t1) => (Returned tt, w1, t1) end.

Definition setCards (cs : list CardData) : M unit :=
  fun w =>
    (Returned tt,
     {| cards := cs; selectedCard := selectedCard w; session := session w |},
     []).

Definition setSelectedCard (c : option CardData) : M unit :=
  fun w =>
    (Returned tt,
     {| cards := cards w; selectedCard := c; session := session w |},
     []).

Definition read_selectedCard : M (option CardData) :=
  fun w => (Returned (selectedCard w), w, []).

(** [NfcManager.requestTechnology]: when it fulfils, the session is
    held. *)
Definition requestTechnology (e : Env) (tech : NfcTech) : M unit :=
  fun w =>
    match requestTechnology_answer e with
    | Returned _ =>
        (Returned tt,
         {| cards := cards w; selectedCard := selectedCard w; session := true |},
         [NfcManager_requestTechnology tech])
    | Thrown ex => (Thrown ex, w, [NfcManager_requestTechnology tech])
    end.

(** Modelled from the spec: [NfcManager.cancelTechnologyRequest] belongs
    to the radio abstraction library, which is not part of the
    repository.  The spec gives it no failure ("cancellation is idempotent
    and safe to invoke even if no session is active"): it releases the
    session, held or not, and fulfils. *)
Definition cancelTechnologyRequest : M unit :=
  fun w =>
    (Returned tt,
     {| cards := cards w; selectedCard := selectedCard w; session := false |},
     [NfcManager_cancelTechnologyRequest]).

(* ================================================================= *)
(** ** The component *)

(** [fetchCards] (lines 27-38) *)
Definition fetchCards (e : Env) : M unit :=
  match currentUser e with
  | Some user =>
      docs <- ask (getDocs (uid user)) (getDocs_answer e (uid user)) ;;
      let userCards :=
        map (fun doc => spread_with_id (doc_data doc) (doc_id doc)) docs in
      setCards userCards
  | None => ret tt
  end.

(** [startNFC] (lines 51-64) *)
Definition startNFC (e : Env) : M unit :=
  try_catch
    (ask NfcManager_start (start_answer e) ;;
     requestTechnology e Ndef_tech ;;
     tag <- ask NfcManager_getTag (getTag_answer e) ;;
     match tag with
     | Some _ =>
         call (Alert_alert "NFC Detected"
                 "Another phone is nearby. Choose a card to share.")
     | None => ret tt
     end)
    (fun ex =>
       call (console_warn ex) ;;
       call (Alert_alert "Error" "NFC failed")).

(** [stopNFC] (lines 66-68) *)
Definition stopNFC : M unit := cancelTechnologyRequest.

(** The message of lines 72-74. *)
Definition message_of (selected : CardData) : list NdefRecord :=
  [TextRecord (encode_card selected)].

(** [writeNfcTag] (lines 70-90) *)
Definition writeNfcTag (e : Env) (selected : CardData) : M unit :=
  try_finally
    (try_catch
       (let message := message_of selected in
        bytes <- ask (Ndef_encodeMessage message)
                     (encodeMessage_answer e message) ;;
        match bytes with
        | Some bs =>
            ask (NfcManager_transceive bs) (transceive_answer e bs) ;;
            call (Alert_alert "Success"
                    "Card information has been written to the NFC tag.")
        | None =>
            call (Alert_alert "Error" "Failed to encode the NDEF message.")
        end)
       (fun error =>
          call (console_error "Error writing NFC tag:" error) ;;
          call (Alert_alert "Error" "Failed to write the NFC tag.")))
    (unawaited cancelTechnologyRequest).

(** [handleCardSelection] (lines 92-94) *)
Definition handleCardSelection (card : CardData) : M unit :=
  setSelectedCard (Some card).

(** [handleShare] (lines 96-104) *)
Definition handleShare (e : Env) : M unit :=
  selected <- read_selectedCard ;;
  match selected with
  | Some card =>
      writeNfcTag e card ;;
      call (onCardSelected card) ;;
      call onClose
  | None => call (Alert_alert "Error" "Please select a card to share.")
  end.

(** The mount effect (lines 26-41): [fetchCards()] is not awaited. *)
Definition mount_effect (e : Env) : M unit := unawaited (fetchCards e).

(** The visibility effect (lines 43-49), run at mount and on every change
    of [visible]; neither call is awaited. *)
Definition visible_effect (e : Env) (visible : bool) : M unit :=
  if visible then unawaited (startNFC e) else unawaited stopNFC.

(** What can happen to a mounted component: the host changes [visible],
    or the user presses a card of the list, the share button, the cancel
    button (or the system back button, [onRequestClose]). *)
Inductive Action :=
| SetVisible (visible : bool)
| PressCard (item : CardData)
| PressShare
| PressCancel.

Definition step (e : Env) (a : Action) : M unit :=
  match a with
  | SetVisible v => visible_effect e v
  | PressCard item => handleCardSelection item
  | PressShare => handleShare e
  | PressCancel => call onClose
  end.

(** A run: each action meets its own answers of the collaborators, and
    finds the component settled: the handlers of the actions before it
    have run to their end. *)
Fixpoint run (script : list (Env * Action)) : M unit :=
  match script with
  | [] => ret tt
  | (e, a) :: script' => step e a ;; run script'
  end.

(** Mounting: first render with the initial state, then both effects. *)
Definition mount (e : Env) (visible : bool) : M unit :=
  mount_effect e ;; visible_effect e visible.

Definition result_of {A} (x : outcome A * World * list Call) : outcome A :=
  fst (fst x).
Definition world_of {A} (x : outcome A * World * list Call) : World :=
  snd (fst x).
Definition calls_of {A} (x : outcome A * World * list Call) : list Call :=
  snd x.

Definition is_transceive (c : Call) : bool :=
  match c with NfcManager_transceive _ => true | _ => false end.

Definition is_alert (c : Call) : bool :=
  match c with Alert_alert _ _ => true | _ => false end.

(** Calls that act on the reader session. *)
Definition is_session_call (c : Call) : bool :=
  match c with
  | NfcManager_start | NfcManager_requestTechnology _ | NfcManager_getTag
  | NfcManager_cancelTechnologyRequest | Ndef_encodeMessage _
  | NfcManager_transceive _ => true
  | _ => false
  end.

Definition is_encodeMessage (c : Call) : bool :=
  match c with Ndef_encodeMessage _ => true | _ => false end.

(** Calls to the host screen. *)
Definition is_host_call (c : Call) : bool :=
  match c with onCardSelected _ | onClose => true | _ => false end.

(* ================================================================= *)
(** ** Sample environments *)

Definition select (card : CardData) (w : World) : World :=
  {| cards := cards w; selectedCard := Some card; session := session w |}.

(** Two stored documents with different keys whose data carry the same
    [id] field. *)
Definition sample_docs : list QueryDocumentSnapshot :=
  [ {| doc_id := lit "docA";
       doc_data := {| id := lit "1"; firstName := lit "Ann"; lastName := lit "Lee";
                      type := Work; phone := lit "555-1"; workNumber := None |} |};
    {| doc_id := lit "docB";
       doc_data := {| id := lit "1"; firstName := lit "Bo"; lastName := lit "Ray";
                      type := Student; phone := lit "555-2";
                      workNumber := Some (lit "555-3") |} |} ].

(** A signed-in user, two stored cards, a reader that works. *)
Definition env_ok : Env :=
  {| currentUser := Some {| uid := lit "u1" |};
     getDocs_answer := fun _ => Returned sample_docs;
     start_answer := Returned tt;
     requestTechnology_answer := Returned tt;
     getTag_answer := Returned (Some {| tag_id := [4; 1] |});
     encodeMessage_answer := fun _ => Returned (Some [1; 2; 3]);
     transceive_answer := fun _ => Returned [] |}.

(** The transmission throws. *)
Definition env_write_fails : Env :=
  {| currentUser := currentUser env_ok;
     getDocs_answer := getDocs_answer env_ok;
     start_answer := Returned tt;
     requestTechnology_answer := Returned tt;
     getTag_answer := Returned None;
     encodeMessage_answer := fun _ => Returned (Some [1; 2; 3]);
     transceive_answer := fun _ => Thrown (Error "tag lost") |}.

(** The encoder yields no byte sequence. *)
Definition env_encode_fails : Env :=
  {| currentUser := currentUser env_ok;
     getDocs_answer := getDocs_answer env_ok;
     start_answer := Returned tt;
     requestTechnology_answer := Returned tt;
     getTag_answer := Returned None;
     encodeMessage_answer := fun _ => Returned None;
     transceive_answer := fun _ => Returned [] |}.

(** Nobody is signed in. *)
Definition env_signed_out : Env :=
  {| currentUser := None;
     getDocs_answer := fun _ => Thrown (Error "permission-denied");
     start_answer := Returned tt;
     requestTechnology_answer := Returned tt;
     getTag_answer := Returned None;
     encodeMessage_answer := fun _ => Returned (Some [1; 2; 3]);
     transceive_answer := fun _ => Returned [] |}.

(** A JSON text literal, written with ['] where the text has a double
    quote. *)
Definition lit_json (s : string) : jsstring :=
  map (fun c => if c =? 39 then 34 else c) (lit s).

(** The card of the spec's example. *)
Definition ann : CardData :=
  {| id := lit "1"; firstName := lit "Ann"; lastName := lit "Lee";
     type := Work; phone := lit "555-1"; workNumber := None |}.

(* ================================================================= *)
(** ** Vocabulary of the statements *)

Definition is_release (c : Call) : bool :=
  match c with NfcManager_cancelTechnologyRequest => true | _ => false end.

(** The properties that [JSON.stringify] writes: those with a string
    value, in property order. *)
Fixpoint written (o : obj) : list (jsstring * jsstring) :=
  match o with
  | [] => []
  | (k, VString s) :: o' => (k, s) :: written o'
  | (_, VUndefined) :: o' => written o'
  end.

Definition member_text (kv : jsstring * jsstring) : jsstring :=
  JSON.QuoteJSONString (fst kv) ++ 58 :: JSON.QuoteJSONString (snd kv).

Definition as_prop (kv : jsstring * jsstring) : jsstring * jsval :=
  (fst kv, VString (snd kv)).

(** Adding the members one by one, as the parser does. *)
Definition add_all (acc : obj) (kvs : list (jsstring * jsstring)) : obj :=
  fold_left (fun a kv => obj_set (fst kv) (VString (snd kv)) a) kvs acc.

(** The world after the session is released. *)
Definition released (w : World) : World :=
  {| cards := cards w; selectedCard := selectedCard w; session := false |}.

(** The calls of one write attempt before the release, by outcome. *)
Definition attempt_calls (e : Env) (selected : CardData) : list Call :=
  let message := message_of selected in
  Ndef_encodeMessage message ::
  match encodeMessage_answer e message with
  | Returned (Some bs) =>
      NfcManager_transceive bs ::
      match transceive_answer e bs with
      | Returned _ =>
          [Alert_alert "Success"
             "Card information has been written to the NFC tag."]
      | Thrown error =>
          [console_error "Error writing NFC tag:" error;
           Alert_alert "Error" "Failed to write the NFC tag."]
      end
  | Returned None => [Alert_alert "Error" "Failed to encode the NDEF message."]
  | Thrown error =>
      [console_error "Error writing NFC tag:" error;
       Alert_alert "Error" "Failed to write the NFC tag."]
  end.

Definition write_calls (e : Env) (selected : CardData) : list Call :=
  attempt_calls e selected ++ [NfcManager_cancelTechnologyRequest].

(** The three outcomes of the design. *)
Inductive WriteOutcome := Written | EncodeFailed | WriteFailed.

Definition write_outcome (e : Env) (selected : CardData) : WriteOutcome :=
  match encodeMessage_answer e (message_of selected) with
  | Returned (Some bs) =>
      match transceive_answer e bs with
      | Returned _ => Written
      | Thrown _ => WriteFailed
      end
  | Returned None => EncodeFailed
  | Thrown _ => WriteFailed
  end.

(** What each action does to the selection. *)
Definition selection_after (a : Action) (before : option CardData)
  : option CardData :=
  match a with
  | PressCard item => Some item
  | _ => before
  end.

(** A card whose fields exercise the escapes: a quote, a backslash, a
    line feed, a lone high surrogate, a surrogate pair, a code unit above
    the surrogates and a control character. *)
Definition odd_card : CardData :=
  {| id := [34; 92; 10]; firstName := [0xD83D]; lastName := [0xD83D; 0xDE00];
     type := Student; phone := [0xFFFF; 31]; workNumber := Some [] |}.

(** Unfolding the monad. *)
Ltac run_monad :=
  cbv [writeNfcTag try_finally try_catch bind ask call unawaited ret
       cancelTechnologyRequest handleShare read_selectedCard
       handleCardSelection setSelectedCard setCards fetchCards startNFC
       stopNFC requestTechnology visible_effect mount_effect step
       result_of world_of calls_of released write_calls attempt_calls].

(* ================================================================= *)
(** ** The list of the modal (lines 111-119) *)

(** [keyExtractor] *)
Definition keyExtractor (item : CardData) : jsstring := id item.

(** The text of a row: [`${item.firstName} ${item.lastName} (${item.type})`] *)
Definition item_text (item : CardData) : jsstring :=
  firstName item ++ lit " " ++ lastName item
  ++ lit " (" ++ type_name (type item) ++ lit ")".

(** One rendered row: its key, its text and what pressing it does. *)
Record Row := {
  row_key : jsstring;
  row_text : jsstring;
  row_onPress : Action
}.

(** [renderItem] over [data={cards}] *)
Definition render_rows (w : World) : list Row :=
  map (fun item =>
         {| row_key := keyExtractor item;
            row_text := item_text item;
            row_onPress := PressCard item |})
      (cards w).

(* ================================================================= *)
(** ** More vocabulary *)

(** Calls that start NFC or acquire the session. *)
Definition is_acquire (c : Call) : bool :=
  match c with
  | NfcManager_start | NfcManager_requestTechnology _ => true
  | _ => false
  end.

Definition is_console_error (c : Call) : bool :=
  match c with console_error _ _ => true | _ => false end.

(** The alert that closes a write attempt, by outcome. *)
Definition alert_of (o : WriteOutcome) : Call :=
  match o with
  | Written =>
      Alert_alert "Success" "Card information has been written to the NFC tag."
  | EncodeFailed => Alert_alert "Error" "Failed to encode the NDEF message."
  | WriteFailed => Alert_alert "Error" "Failed to write the NFC tag."
  end.


(** IsStringWellFormedUnicode: every surrogate is half of a pair. *)
Fixpoint well_formed (s : jsstring) : bool :=
  match s with
  | [] => true
  | c :: rest =>
      if JSON.is_high_surrogate c then
        match rest with
        | d :: rest' => JSON.is_low_surrogate d && well_formed rest'
        | [] => false
        end
      else negb (JSON.is_low_surrogate c) && well_formed rest
  end.

(** No code unit below U+0020, the range that JSON forbids inside a
    string.  U+007F and the controls U+0080 to U+009F are not in that
    range. *)
Definition no_c0_control (s : jsstring) : bool :=
  forallb (fun c => 32 <=? c) s.

(** A code unit that is neither below U+0020 nor a surrogate. *)
Definition plain (c : N) : bool :=
  (32 <=? c) && negb (JSON.is_high_surrogate c) && negb (JSON.is_low_surrogate c).

(** A text that can be carried as it is. *)
Definition clean (s : jsstring) : Prop :=
  well_formed s = true /\ no_c0_control s = true.

(** The same person as [ann] on another card. *)
Definition ann_again : CardData :=
  {| id := lit "2"; firstName := lit "Ann"; lastName := lit "Lee";
     type := Work; phone := lit "555-9"; workNumber := Some (lit "555-0") |}.

(** Where [startNFC] can be: not called yet, suspended at one of its
    three [await]s, or settled. *)
Inductive StartPoint :=
| NotStarted
| AwaitStart
| AwaitRequest
| AwaitTag
| Settled.

(** The [catch] block of [startNFC]. *)
Definition startNFC_catch (ex : Exn) : M StartPoint :=
  call (console_warn ex) ;;
  call (Alert_alert "Error" "NFC failed") ;;
  ret Settled.

(** One synchronous stretch of [startNFC] (lines 52-63), from a point
    to the next: the answer of the awaited call is taken up, and either
    the [catch] block runs or the next call is made and the function
    suspends on it. *)
Definition startNFC_resume (e : Env) (p : StartPoint) : M StartPoint :=
  match p with
  | NotStarted =>
      unawaited (ask NfcManager_start (start_answer e)) ;;
      ret AwaitStart
  | AwaitStart =>
      match start_answer e with
      | Returned _ =>
          unawaited (requestTechnology e Ndef_tech) ;;
          ret AwaitRequest
      | Thrown ex => startNFC_catch ex
      end
  | AwaitRequest =>
      match requestTechnology_answer e with
      | Returned _ =>
          unawaited (ask NfcManager_getTag (getTag_answer e)) ;;
          ret AwaitTag
      | Thrown ex => startNFC_catch ex
      end
  | AwaitTag =>
      match getTag_answer e with
      | Returned (Some _) =>
          call (Alert_alert "NFC Detected"
                  "Another phone is nearby. Choose a card to share.") ;;
          ret Settled
      | Returned None => ret Settled
      | Thrown ex => startNFC_catch ex
      end
  | Settled => ret Settled
  end.

(** Resuming [n] times in a row. *)
Fixpoint resume_times (e : Env) (n : nat) (p : StartPoint) : M StartPoint :=
  match n with
  | O => ret p
  | S n' => p' <- startNFC_resume e p ;; resume_times e n' p'
  end.

(** The host hides the modal while [startNFC], called by the showing,
    is suspended on [NfcManager.start()]: the visibility effect runs
    [stopNFC], then [startNFC] goes on. *)
Definition hide_during_start (e : Env) : M StartPoint :=
  p <- startNFC_resume e NotStarted ;;
  visible_effect e false ;;
  resume_times e 3 p.

(** The host hides the modal after [startNFC] has settled. *)
Definition hide_after_start (e : Env) : M StartPoint :=
  p <- resume_times e 4 NotStarted ;;
  visible_effect e false ;;
  ret p.

(** The store is signed in to but does not answer. *)
Definition env_store_down : Env :=
  {| currentUser := Some {| uid := lit "u1" |};
     getDocs_answer := fun _ => Thrown (Error "unavailable");
     start_answer := Returned tt;
     requestTechnology_answer := Returned tt;
     getTag_answer := Returned None;
     encodeMessage_answer := fun _ => Returned (Some [1; 2; 3]);
     transceive_answer := fun _ => Returned [] |}.

(** The reader is acquired, then looking for a tag throws. *)
Definition env_tag_fails : Env :=
  {| currentUser := None;
     getDocs_answer := fun _ => Returned [];
     start_answer := Returned tt;
     requestTechnology_answer := Returned tt;
     getTag_answer := Thrown (Error "no tag");
     encodeMessage_answer := fun _ => Returned (Some [1; 2; 3]);
     transceive_answer := fun _ => Returned [] |}.

(* ================================================================= *)
(** * Properties *)

(* ================================================================= *)
(** ** Strings and objects *)

Lemma jsstring_eqb_eq (a b : jsstring) : jsstring_eqb a b = true <-> a = b.
Proof.
  revert b. induction a as [|x a IH]; intros [|y b]; simpl; split;
    try congruence; try discriminate.
  - intros H. apply andb_true_iff in H. destruct H as [Hx Hab].
    apply N.eqb_eq in Hx. apply IH in Hab. congruence.
  - intros H. injection H as -> ->. rewrite N.eqb_refl. simpl.
    apply IH. reflexivity.
Qed.

Lemma jsstring_eqb_refl (a : jsstring) : jsstring_eqb a a = true.
Proof. apply jsstring_eqb_eq. reflexivity. Qed.

Lemma jsstring_eqb_neq (a b : jsstring) : jsstring_eqb a b = false <-> a <> b.
Proof.
  destruct (jsstring_eqb a b) eqn:E; split; intros H; try congruence.
  - apply jsstring_eqb_eq in E. contradiction.
  - intros ->. rewrite jsstring_eqb_refl in E. discriminate.
Qed.

Lemma obj_get_In (k : jsstring) (v : jsval) (o : obj) :
  NoDup (keys o) -> In (k, v) o -> obj_get k o = Some v.
Proof.
  induction o as [|[k' v'] o IH]; simpl; intros Hnd Hin; [contradiction|].
  inversion Hnd as [|? ? Hk Hnd']; subst.
  destruct Hin as [Heq | Hin].
  - injection Heq as -> ->. rewrite jsstring_eqb_refl. reflexivity.
  - destruct (jsstring_eqb k k') eqn:E.
    + apply jsstring_eqb_eq in E. subst k'. exfalso. apply Hk.
      unfold keys. apply in_map_iff. exists (k, v). split; [reflexivity|assumption].
    + apply IH; assumption.
Qed.

Lemma obj_get_not_In (k : jsstring) (o : obj) :
  ~ In k (keys o) -> obj_get k o = None.
Proof.
  induction o as [|[k' v'] o IH]; simpl; intros Hk; [reflexivity|].
  destruct (jsstring_eqb k k') eqn:E.
  - apply jsstring_eqb_eq in E. subst. exfalso. apply Hk. left. reflexivity.
  - apply IH. intros H. apply Hk. right. exact H.
Qed.

Lemma obj_get_Some_In (k : jsstring) (v : jsval) (o : obj) :
  obj_get k o = Some v -> In (k, v) o.
Proof.
  induction o as [|[k' v'] o IH]; simpl; [discriminate|].
  destruct (jsstring_eqb k k') eqn:E.
  - apply jsstring_eqb_eq in E. subst. intros H. injection H as ->. left. reflexivity.
  - intros H. right. apply IH. exact H.
Qed.

(** Reading a property does not depend on the property order. *)
Lemma obj_get_Permutation (k : jsstring) (o o' : obj) :
  NoDup (keys o) -> Permutation o o' -> obj_get k o = obj_get k o'.
Proof.
  intros Hnd Hp.
  assert (Hnd' : NoDup (keys o')).
  { eapply Permutation_NoDup; [|exact Hnd]. unfold keys. apply Permutation_map. exact Hp. }
  destruct (obj_get k o) as [v|] eqn:E.
  - symmetry. apply obj_get_In; [exact Hnd'|].
    eapply Permutation_in; [exact Hp|]. apply obj_get_Some_In. exact E.
  - destruct (obj_get k o') as [v'|] eqn:E'; [|reflexivity].
    apply obj_get_Some_In in E'.
    apply Permutation_sym in Hp.
    apply (Permutation_in _ Hp) in E'.
    rewrite (obj_get_In _ _ _ Hnd E') in E. discriminate.
Qed.

Lemma obj_set_fresh (k : jsstring) (v : jsval) (o : obj) :
  ~ In k (keys o) -> obj_set k v o = o ++ [(k, v)].
Proof.
  induction o as [|[k' v'] o IH]; simpl; intros Hk; [reflexivity|].
  destruct (jsstring_eqb k k') eqn:E.
  - apply jsstring_eqb_eq in E. subst. exfalso. apply Hk. left. reflexivity.
  - f_equal. apply IH. intros H. apply Hk. right. exact H.
Qed.

(* ================================================================= *)
(** ** Quoting and reading back a string *)

Lemma hex_value_digit (d : N) : d < 16 -> JSON.hex_value (JSON.hex_digit d) = Some d.
Proof.
  intros Hd. unfold JSON.hex_value, JSON.hex_digit.
  destruct (N.ltb_spec d 10) as [Hlt | Hge].
  - assert (H1 : (48 <=? 48 + d) = true) by (apply N.leb_le; lia).
    assert (H2 : (48 + d <=? 57) = true) by (apply N.leb_le; lia).
    rewrite H1, H2. cbn [andb]. f_equal. lia.
  - assert (H1 : (87 + d <=? 57) = false) by (apply N.leb_gt; lia).
    assert (H2 : (97 <=? 87 + d) = true) by (apply N.leb_le; lia).
    assert (H3 : (87 + d <=? 102) = true) by (apply N.leb_le; lia).
    rewrite H1, H2, H3. rewrite andb_false_r. cbn [andb]. f_equal. lia.
Qed.

Lemma nibbles (c : N) :
  c < 65536 ->
  ((c / 4096 mod 16 * 16 + c / 256 mod 16) * 16 + c / 16 mod 16) * 16
  + c mod 16 = c.
Proof.
  intros Hc.
  pose proof (N.div_mod c 16 ltac:(lia)) as E0.
  pose proof (N.div_mod (c / 16) 16 ltac:(lia)) as E1.
  pose proof (N.div_mod (c / 16 / 16) 16 ltac:(lia)) as E2.
  rewrite N.Div0.div_div in E1, E2. rewrite N.Div0.div_div in E2.
  change (16 * 16) with 256 in *. change (256 * 16) with 4096 in *.
  assert (H3 : c / 4096 < 16) by (apply N.Div0.div_lt_upper_bound; lia).
  rewrite (N.mod_small (c / 4096) 16 H3).
  lia.
Qed.

Lemma hex4_UnicodeEscape (c : N) :
  c < 65536 ->
  JSON.hex4 (JSON.hex_digit (c / 4096 mod 16)) (JSON.hex_digit (c / 256 mod 16))
            (JSON.hex_digit (c / 16 mod 16)) (JSON.hex_digit (c mod 16)) = Some c.
Proof.
  intros Hc. unfold JSON.hex4.
  rewrite !hex_value_digit by (apply N.mod_lt; lia).
  f_equal. apply nibbles. exact Hc.
Qed.

Lemma parse_chars_UnicodeEscape (c : N) (rest : jsstring) :
  c < 65536 ->
  JSON.parse_chars (JSON.UnicodeEscape c ++ rest)
  = JSON.cons_fst c (JSON.parse_chars rest).
Proof.
  intros Hc. unfold JSON.UnicodeEscape.
  cbn [app JSON.parse_chars].
  change (92 =? 34) with false. change (92 =? 92) with true.
  change (117 =? 117) with true. cbv iota.
  rewrite hex4_UnicodeEscape by exact Hc. reflexivity.
Qed.

Lemma surrogate_lt (c : N) :
  JSON.is_high_surrogate c || JSON.is_low_surrogate c = true ->
  55296 <= c < 57344.
Proof.
  unfold JSON.is_high_surrogate, JSON.is_low_surrogate. intros H.
  apply orb_true_iff in H.
  destruct H as [H | H]; apply andb_true_iff in H; destruct H as [H1 H2];
    apply N.leb_le in H1, H2; lia.
Qed.

(** A copied code unit is read back as itself. *)
Lemma parse_chars_plain (c : N) (rest : jsstring) :
  c <> 34 -> c <> 92 -> 32 <= c ->
  JSON.parse_chars (c :: rest) = JSON.cons_fst c (JSON.parse_chars rest).
Proof.
  intros H34 H92 H32. cbn [JSON.parse_chars].
  apply N.eqb_neq in H34, H92. rewrite H34, H92.
  assert (H : (c <? 32) = false) by (apply N.ltb_ge; exact H32).
  rewrite H. reflexivity.
Qed.

(** Whatever [quote_unit] writes for a code unit is read back as that
    code unit. *)
Lemma parse_chars_quote_unit (c : N) (rest : jsstring) :
  JSON.parse_chars (JSON.quote_unit c ++ rest)
  = JSON.cons_fst c (JSON.parse_chars rest).
Proof.
  unfold JSON.quote_unit.
  destruct (N.eqb_spec c 8) as [->|H8]; [reflexivity|].
  destruct (N.eqb_spec c 9) as [->|H9]; [reflexivity|].
  destruct (N.eqb_spec c 10) as [->|H10]; [reflexivity|].
  destruct (N.eqb_spec c 12) as [->|H12]; [reflexivity|].
  destruct (N.eqb_spec c 13) as [->|H13]; [reflexivity|].
  destruct (N.eqb_spec c 34) as [->|H34]; [reflexivity|].
  destruct (N.eqb_spec c 92) as [->|H92]; [reflexivity|].
  destruct (N.ltb_spec c 32) as [Hlt|Hge]; cbn [orb].
  - apply parse_chars_UnicodeEscape. lia.
  - destruct (JSON.is_high_surrogate c || JSON.is_low_surrogate c) eqn:Hs.
    + apply parse_chars_UnicodeEscape. apply surrogate_lt in Hs. lia.
    + cbn [app]. apply parse_chars_plain; assumption.
Qed.

Lemma parse_chars_pair (c d : N) (rest : jsstring) :
  JSON.is_high_surrogate c = true -> JSON.is_low_surrogate d = true ->
  JSON.parse_chars (c :: d :: rest)
  = JSON.cons_fst c (JSON.cons_fst d (JSON.parse_chars rest)).
Proof.
  intros Hc Hd.
  assert (Rc : 55296 <= c < 57344) by (apply surrogate_lt; rewrite Hc; reflexivity).
  assert (Rd : 55296 <= d < 57344)
    by (apply surrogate_lt; rewrite Hd; apply orb_true_r).
  rewrite parse_chars_plain by lia.
  rewrite parse_chars_plain by lia. reflexivity.
Qed.

(** Induction on a string two code units at a time, the way
    [quote_body] reads it. *)
Lemma jsstring_pair_ind (P : jsstring -> Prop) :
  P [] ->
  (forall c, P [c]) ->
  (forall c d s, P s -> P (d :: s) -> P (c :: d :: s)) ->
  forall s, P s.
Proof.
  intros H0 H1 H2 s.
  assert (H : P s /\ forall c, P (c :: s)).
  { induction s as [|d s [IHs IHc]].
    - split; [exact H0 | exact H1].
    - split; [apply IHc|]. intros c. apply H2; [exact IHs | apply IHc]. }
  apply H.
Qed.

Lemma parse_chars_quote_body (s rest : jsstring) :
  JSON.parse_chars (JSON.quote_body s ++ 34 :: rest) = Some (s, rest).
Proof.
  induction s as [ | c | c d s IHs IHd] using jsstring_pair_ind.
  - reflexivity.
  - cbn [JSON.quote_body].
    destruct (JSON.is_high_surrogate c).
    + rewrite parse_chars_quote_unit. reflexivity.
    + rewrite app_nil_r. rewrite parse_chars_quote_unit. reflexivity.
  - change (JSON.quote_body (c :: d :: s)) with
      (if JSON.is_high_surrogate c then
         if JSON.is_low_surrogate d then c :: d :: JSON.quote_body s
         else JSON.quote_unit c ++ JSON.quote_body (d :: s)
       else JSON.quote_unit c ++ JSON.quote_body (d :: s)).
    destruct (JSON.is_high_surrogate c) eqn:Hc.
    + destruct (JSON.is_low_surrogate d) eqn:Hd.
      * cbn [app]. rewrite parse_chars_pair by assumption.
        rewrite IHs. reflexivity.
      * rewrite <- app_assoc. rewrite parse_chars_quote_unit.
        rewrite IHd. reflexivity.
    + rewrite <- app_assoc. rewrite parse_chars_quote_unit.
      rewrite IHd. reflexivity.
Qed.

(** [QuoteJSONString] is inverted by the string rule of the parser. *)
Lemma parse_string_Quote (s rest : jsstring) :
  JSON.parse_string (JSON.QuoteJSONString s ++ rest) = Some (s, rest).
Proof.
  unfold JSON.QuoteJSONString, JSON.parse_string.
  cbn [app]. rewrite <- app_assoc. cbn [app].
  apply parse_chars_quote_body.
Qed.

(* ================================================================= *)
(** ** Serializing and reading back an object *)

Lemma members_written (o : obj) :
  JSON.members o = map member_text (written o).
Proof.
  induction o as [|[k [|s]] o IH]; simpl; [reflexivity|exact IH|].
  rewrite IH. reflexivity.
Qed.

Lemma written_all_strings (o : obj) :
  (forall k, ~ In (k, VUndefined) o) -> map as_prop (written o) = o.
Proof.
  induction o as [|[k [|s]] o IH]; simpl; intros H; [reflexivity| |].
  - exfalso. apply (H k). left. reflexivity.
  - unfold as_prop at 1. simpl. f_equal. apply IH.
    intros k' Hin. apply (H k'). right. exact Hin.
Qed.

Lemma skip_ws_quote (s rest : jsstring) :
  JSON.skip_ws (JSON.QuoteJSONString s ++ rest) = JSON.QuoteJSONString s ++ rest.
Proof. reflexivity. Qed.

Lemma parse_member_text (kv : jsstring * jsstring) (rest : jsstring) :
  JSON.parse_member (member_text kv ++ rest)
  = Some (fst kv, snd kv, JSON.skip_ws rest).
Proof.
  unfold JSON.parse_member, member_text.
  rewrite <- app_assoc. rewrite skip_ws_quote. rewrite parse_string_Quote.
  cbn [app]. change (JSON.skip_ws (58 :: ?x)) with (58 :: x).
  cbv iota beta.
  change (JSON.skip_ws (58 :: JSON.QuoteJSONString (snd kv) ++ rest))
    with (58 :: JSON.QuoteJSONString (snd kv) ++ rest).
  cbv iota beta.
  rewrite skip_ws_quote. rewrite parse_string_Quote. reflexivity.
Qed.

Lemma parse_members_join (kvs : list (jsstring * jsstring)) :
  kvs <> [] ->
  forall (fuel : nat) (acc : obj) (rest : jsstring),
    (List.length kvs <= fuel)%nat ->
    JSON.parse_members fuel acc
      (JSON.join_comma (map member_text kvs) ++ 125 :: rest)
    = Some (add_all acc kvs, rest).
Proof.
  induction kvs as [|kv kvs IH]; intros Hne fuel acc rest Hfuel; [congruence|].
  destruct fuel as [|fuel]; [simpl in Hfuel; lia|].
  destruct kvs as [|kv' kvs].
  - cbn [map JSON.join_comma JSON.parse_members].
    rewrite parse_member_text. reflexivity.
  - change (JSON.join_comma (map member_text (kv :: kv' :: kvs)))
      with (member_text kv ++ 44 :: JSON.join_comma (map member_text (kv' :: kvs))).
    cbn [JSON.parse_members].
    rewrite <- app_assoc. rewrite parse_member_text.
    cbn [app].
    change (JSON.skip_ws (44 :: ?x)) with (44 :: x).
    cbv iota beta.
    change (JSON.skip_ws
              (44 :: JSON.join_comma (map member_text (kv' :: kvs)) ++ 125 :: rest))
      with (44 :: JSON.join_comma (map member_text (kv' :: kvs)) ++ 125 :: rest).
    cbv iota beta zeta.
    rewrite IH; [reflexivity|discriminate|simpl in *; lia].
Qed.

Lemma join_comma_length (kvs : list (jsstring * jsstring)) (rest : jsstring) :
  (List.length kvs
   <= List.length (JSON.join_comma (map member_text kvs) ++ rest))%nat.
Proof.
  induction kvs as [|kv kvs IH]; [simpl; lia|].
  destruct kvs as [|kv' kvs].
  - cbn [map JSON.join_comma]. unfold member_text, JSON.QuoteJSONString.
    simpl. lia.
  - change (JSON.join_comma (map member_text (kv :: kv' :: kvs)))
      with (member_text kv ++ 44 :: JSON.join_comma (map member_text (kv' :: kvs))).
    rewrite <- app_assoc. rewrite length_app. cbn [app List.length].
    cbn [List.length] in IH. lia.
Qed.

Lemma add_all_fresh (kvs : list (jsstring * jsstring)) (acc : obj) :
  NoDup (keys acc ++ map fst kvs) ->
  add_all acc kvs = acc ++ map as_prop kvs.
Proof.
  revert acc. induction kvs as [|[k s] kvs IH]; intros acc Hnd.
  - simpl. rewrite app_nil_r. reflexivity.
  - cbn [add_all fold_left fst snd map].
    assert (Hk : ~ In k (keys acc)).
    { intros Hin. apply NoDup_remove_2 in Hnd. apply Hnd.
      apply in_or_app. left. exact Hin. }
    rewrite (obj_set_fresh _ _ _ Hk).
    change (fold_left _ kvs ?a) with (add_all a kvs).
    rewrite IH.
    + rewrite <- app_assoc. reflexivity.
    + unfold keys. rewrite map_app. cbn [map fst]. rewrite <- app_assoc.
      exact Hnd.
Qed.

Lemma keys_written (o : obj) :
  NoDup (keys o) -> NoDup (map fst (written o)).
Proof.
  induction o as [|[k [|s]] o IH]; simpl; intros Hnd.
  - constructor.
  - apply IH. inversion Hnd. assumption.
  - inversion Hnd as [|? ? Hk Hnd']; subst. constructor.
    + intros Hin. apply Hk. clear - Hin.
      induction o as [|[k' [|s']] o IH]; simpl in *; [contradiction|right; auto|].
      destruct Hin as [->|Hin]; [left; reflexivity|right; auto].
    + apply IH. exact Hnd'.
Qed.

(** [JSON.parse (JSON.stringify o)] is the object made of the properties
    of [o] that have a value. *)
Lemma parse_stringify (o : obj) :
  NoDup (keys o) ->
  JSON.parse (JSON.stringify o) = Some (map as_prop (written o)).
Proof.
  intros Hnd. apply keys_written in Hnd.
  unfold JSON.parse, JSON.stringify, JSON.SerializeJSONObject, JSON.parse_object.
  rewrite members_written.
  destruct (written o) as [|kv kvs] eqn:E.
  - reflexivity.
  - change (JSON.skip_ws (123 :: ?x)) with (123 :: x). cbv iota beta.
    assert (Hq : exists t,
               JSON.join_comma (map member_text (kv :: kvs)) ++ [125] = 34 :: t).
    { destruct kvs; cbn [map JSON.join_comma]; unfold member_text, JSON.QuoteJSONString;
        cbn [app]; eexists; reflexivity. }
    destruct Hq as [t Ht].
    pose proof (parse_members_join (kv :: kvs) ltac:(discriminate)
                  (List.length (JSON.join_comma (map member_text (kv :: kvs)) ++ [125]))
                  [] [] (join_comma_length _ _)) as Hp.
    rewrite Ht in *. change (JSON.skip_ws (34 :: t)) with (34 :: t).
    cbv iota beta. rewrite Hp.
    rewrite add_all_fresh by exact Hnd. reflexivity.
Qed.

(* ================================================================= *)
(** ** The card payload *)

Lemma card_props_keys (c : CardData) : NoDup (keys (card_props c)).
Proof.
  unfold card_props. destruct (workNumber c); cbv [keys map app fst];
    repeat (constructor; [cbv; intuition discriminate|]); constructor.
Qed.

Lemma card_props_defined (c : CardData) (k : jsstring) :
  ~ In (k, VUndefined) (card_props c).
Proof.
  unfold card_props. destruct (workNumber c); cbn [app In];
    intuition discriminate.
Qed.

Lemma type_of_name_type_name (t : CardType) : type_of_name (type_name t) = Some t.
Proof. destruct t; reflexivity. Qed.

Lemma card_of_obj_card_props (c : CardData) : card_of_obj (card_props c) = Some c.
Proof.
  destruct c as [i f l t p [w|]]; unfold card_of_obj, card_props, get_string;
    cbn; rewrite type_of_name_type_name; reflexivity.
Qed.

Lemma card_of_obj_Permutation (o o' : obj) :
  NoDup (keys o) -> Permutation o o' -> card_of_obj o = card_of_obj o'.
Proof.
  intros Hnd Hp. unfold card_of_obj, get_string.
  rewrite !(obj_get_Permutation _ o o' Hnd Hp). reflexivity.
Qed.

(** The payload text decodes to the card whatever the property order of
    the card object is at run time. *)
Lemma decode_stringify_any_order (c : CardData) (o : obj) :
  Permutation (card_props c) o ->
  decode_card (JSON.stringify o) = Some c.
Proof.
  intros Hp. unfold decode_card.
  assert (Hnd : NoDup (keys o)).
  { eapply Permutation_NoDup; [|apply (card_props_keys c)].
    unfold keys. apply Permutation_map. exact Hp. }
  rewrite (parse_stringify o Hnd).
  rewrite written_all_strings.
  - rewrite <- (card_of_obj_Permutation _ _ (card_props_keys c) Hp).
    apply card_of_obj_card_props.
  - intros k Hin. apply (card_props_defined c k).
    eapply Permutation_in; [apply Permutation_sym; exact Hp | exact Hin].
Qed.

Example encode_ann :
  encode_card ann
  = lit_json "{'id':'1','firstName':'Ann','lastName':'Lee','type':'Work','phone':'555-1'}".
Proof. vm_compute. reflexivity. Qed.

Example decode_encode_ann : decode_card (encode_card ann) = Some ann.
Proof. vm_compute. reflexivity. Qed.

Example decode_encode_odd : decode_card (encode_card odd_card) = Some odd_card.
Proof. vm_compute. reflexivity. Qed.

(** C2.  For every card, decoding the payload text that the write path
    builds ([JSON.stringify] of the card) with the inverse parser gives
    back the same card: every field, the category and the presence or
    absence of the secondary phone number. *)
Theorem encode_decode_card (c : CardData) :
  decode_card (encode_card c) = Some c.
Proof.
  unfold encode_card. apply decode_stringify_any_order. apply Permutation_refl.
Qed.

(* ================================================================= *)
(** ** The write attempt *)

Lemma writeNfcTag_eq (e : Env) (selected : CardData) (w : World) :
  writeNfcTag e selected w
  = (Returned tt, released w, write_calls e selected).
Proof.
  run_monad.
  destruct (encodeMessage_answer e (message_of selected)) as [[bs|]|ex];
    [destruct (transceive_answer e bs) as [r|ex]| |]; reflexivity.
Qed.

(** C1.  Every write attempt, whatever the encoder and the transmission
    answer (success, no byte sequence, an exception of either), ends
    with the call that releases the session, leaves the controller
    [Idle], and returns normally. *)
Theorem writeNfcTag_always_releases (e : Env) (selected : CardData) (w : World) :
  let r := writeNfcTag e selected w in
  result_of r = Returned tt
  /\ (exists before,
        calls_of r = before ++ [NfcManager_cancelTechnologyRequest]
        /\ filter is_release before = [])
  /\ filter is_release (calls_of r) = [NfcManager_cancelTechnologyRequest]
  /\ session (world_of r) = false
  /\ controller_state (world_of r) = Idle
  /\ cards (world_of r) = cards w
  /\ selectedCard (world_of r) = selectedCard w.
Proof.
  cbv zeta. rewrite writeNfcTag_eq.
  assert (H : filter is_release (attempt_calls e selected) = []).
  { unfold attempt_calls.
    destruct (encodeMessage_answer e (message_of selected)) as [[bs|]|ex];
      [destruct (transceive_answer e bs) as [r|ex]| |]; reflexivity. }
  split; [reflexivity|]. split; [|split].
  - exists (attempt_calls e selected). split; [reflexivity|exact H].
  - unfold calls_of, snd, write_calls. rewrite filter_app, H. reflexivity.
  - repeat split.
Qed.

Example write_failed_releases :
  write_outcome env_write_fails ann = WriteFailed
  /\ writeNfcTag env_write_fails ann
       {| cards := [ann]; selectedCard := Some ann; session := true |}
     = (Returned tt,
        {| cards := [ann]; selectedCard := Some ann; session := false |},
        [Ndef_encodeMessage (message_of ann);
         NfcManager_transceive [1; 2; 3];
         console_error "Error writing NFC tag:" (Error "tag lost");
         Alert_alert "Error" "Failed to write the NFC tag.";
         NfcManager_cancelTechnologyRequest]).
Proof. split; reflexivity. Qed.

Example encode_failed_releases :
  write_outcome env_encode_fails ann = EncodeFailed
  /\ writeNfcTag env_encode_fails ann
       {| cards := [ann]; selectedCard := Some ann; session := true |}
     = (Returned tt,
        {| cards := [ann]; selectedCard := Some ann; session := false |},
        [Ndef_encodeMessage (message_of ann);
         Alert_alert "Error" "Failed to encode the NDEF message.";
         NfcManager_cancelTechnologyRequest]).
Proof. split; reflexivity. Qed.

(** C6.  The message built for a selected card is a list of exactly one
    text record, whose content is the serialization of the whole card
    (it decodes to the card).  That one message is what the encoder gets,
    and the bytes the encoder yields for it are what is transmitted, in a
    single transmission: nothing is split or repeated. *)
Theorem one_text_record_payload (e : Env) (selected : CardData) (w : World) :
  let calls := calls_of (writeNfcTag e selected w) in
  message_of selected = [TextRecord (encode_card selected)]
  /\ List.length (message_of selected) = 1%nat
  /\ decode_card (encode_card selected) = Some selected
  /\ filter is_encodeMessage calls = [Ndef_encodeMessage (message_of selected)]
  /\ filter is_transceive calls
     = match encodeMessage_answer e (message_of selected) with
       | Returned (Some bs) => [NfcManager_transceive bs]
       | _ => []
       end.
Proof.
  cbv zeta. rewrite writeNfcTag_eq.
  split; [reflexivity|]. split; [reflexivity|].
  split; [apply decode_stringify_any_order; apply Permutation_refl|].
  unfold calls_of, snd, write_calls, attempt_calls.
  destruct (encodeMessage_answer e (message_of selected)) as [[bs|]|ex];
    [destruct (transceive_answer e bs) as [r|ex]| |]; split; reflexivity.
Qed.

(* ================================================================= *)
(** ** Confirming the share *)

Lemma handleShare_selected (e : Env) (w : World) (card : CardData) :
  selectedCard w = Some card ->
  handleShare e w
  = (Returned tt, released w,
     write_calls e card ++ [onCardSelected card; onClose]).
Proof.
  intros Hsel. unfold handleShare, bind, read_selectedCard.
  rewrite Hsel. rewrite writeNfcTag_eq. reflexivity.
Qed.

(** C3.  Confirming the share with nothing selected does one thing: it
    shows the alert that asks for a selection.  The world is unchanged
    and no call reaches the NFC manager, the encoder or the host. *)
Theorem handleShare_without_selection (e : Env) (w : World) :
  selectedCard w = None ->
  handleShare e w
  = (Returned tt, w, [Alert_alert "Error" "Please select a card to share."])
  /\ filter is_session_call (calls_of (handleShare e w)) = []
  /\ filter is_transceive (calls_of (handleShare e w)) = []
  /\ filter is_host_call (calls_of (handleShare e w)) = [].
Proof.
  intros Hsel.
  assert (H : handleShare e w
              = (Returned tt, w,
                 [Alert_alert "Error" "Please select a card to share."])).
  { unfold handleShare, bind, read_selectedCard. rewrite Hsel. reflexivity. }
  rewrite H. repeat split.
Qed.

Lemma handleShare_without_selection_witness :
  selectedCard initial = None
  /\ handleShare env_write_fails initial
     = (Returned tt, initial,
        [Alert_alert "Error" "Please select a card to share."]).
Proof.
  split; [reflexivity|].
  apply (handleShare_without_selection env_write_fails initial). reflexivity.
Defined.




(* ================================================================= *)
(** ** Fetching the cards *)

(** C5, as the spec words it, fails: with nobody signed in the fetch
    returns normally and makes no call at all, so no error is shown. *)
Lemma fetch_signed_out_is_silent :
  currentUser env_signed_out = None
  /\ result_of (fetchCards env_signed_out initial) = Returned tt
  /\ calls_of (fetchCards env_signed_out initial) = []
  /\ ~ (exists c, In c (calls_of (fetchCards env_signed_out initial))
                  /\ is_alert c = true).
Proof.
  split; [reflexivity|]. split; [reflexivity|]. split; [reflexivity|].
  intros [c [Hin _]]. exact Hin.
Qed.

(** C5, amended.  With nobody signed in the fetch does nothing: it
    returns normally, reads nothing from the store, shows nothing to the
    user and leaves the card list as it is, which after mounting is the
    empty list. *)
Theorem fetchCards_signed_out (e : Env) (w : World) :
  currentUser e = None ->
  fetchCards e w = (Returned tt, w, [])
  /\ mount_effect e initial = (Returned tt, initial, [])
  /\ cards (world_of (mount_effect e initial)) = [].
Proof.
  intros Hu. unfold mount_effect, unawaited, fetchCards. rewrite Hu.
  repeat split.
Qed.

Lemma fetchCards_signed_out_witness :
  currentUser env_signed_out = None
  /\ fetchCards env_signed_out initial = (Returned tt, initial, []).
Proof.
  split; [reflexivity|].
  apply (fetchCards_signed_out env_signed_out initial). reflexivity.
Defined.

Lemma fetchCards_signed_in (e : Env) (w : World) (user : User)
      (docs : list QueryDocumentSnapshot) :
  currentUser e = Some user ->
  getDocs_answer e (uid user) = Returned docs ->
  fetchCards e w
  = (Returned tt,
     {| cards := map (fun doc => spread_with_id (doc_data doc) (doc_id doc)) docs;
        selectedCard := selectedCard w; session := session w |},
     [getDocs (uid user)]).
Proof.
  intros Hu Hd. unfold fetchCards. rewrite Hu.
  unfold bind, ask, setCards. rewrite Hd. reflexivity.
Qed.

Lemma map_id_spread (docs : list QueryDocumentSnapshot) :
  map id (map (fun doc => spread_with_id (doc_data doc) (doc_id doc)) docs)
  = map doc_id docs.
Proof. rewrite map_map. reflexivity. Qed.

(** C10.  After a fetch that succeeds, the card list has one card per
    document, in order; each card's [id] is the key of its document,
    whatever [id] the document's data held, and its other fields are the
    data's.  Documents with distinct keys therefore give cards with
    distinct ids. *)
Theorem fetched_ids_are_document_keys
        (e : Env) (w : World) (user : User) (docs : list QueryDocumentSnapshot) :
  currentUser e = Some user ->
  getDocs_answer e (uid user) = Returned docs ->
  let fetched := cards (world_of (fetchCards e w)) in
  map id fetched = map doc_id docs
  /\ Forall2 (fun card doc =>
                id card = doc_id doc
                /\ card = spread_with_id (doc_data doc) (doc_id doc))
             fetched docs
  /\ (NoDup (map doc_id docs) -> NoDup (map id fetched)).
Proof.
  intros Hu Hd. cbv zeta. rewrite (fetchCards_signed_in e w user docs Hu Hd).
  unfold world_of. cbn [fst snd cards].
  split; [apply map_id_spread|]. split.
  - clear. induction docs as [|doc docs IH]; constructor; [split; reflexivity|exact IH].
  - rewrite map_id_spread. exact (fun H => H).
Qed.

Lemma fetched_ids_are_document_keys_witness :
  currentUser env_ok = Some {| uid := lit "u1" |}
  /\ getDocs_answer env_ok (lit "u1") = Returned sample_docs
  /\ map id (map doc_data sample_docs) = [lit "1"; lit "1"]
  /\ NoDup (map doc_id sample_docs)
  /\ map id (cards (world_of (fetchCards env_ok initial))) = [lit "docA"; lit "docB"]
  /\ NoDup (map id (cards (world_of (fetchCards env_ok initial)))).
Proof.
  assert (Hnd : NoDup (map doc_id sample_docs)).
  { repeat (constructor; [cbv; intuition discriminate|]). constructor. }
  pose proof (fetched_ids_are_document_keys env_ok initial
                {| uid := lit "u1" |} sample_docs eq_refl eq_refl) as H.
  cbv zeta in H. destruct H as [Hmap [_ Hdistinct]].
  split; [reflexivity|]. split; [reflexivity|]. split; [reflexivity|].
  split; [exact Hnd|]. split; [exact Hmap|]. exact (Hdistinct Hnd).
Defined.

(* ================================================================= *)
(** ** Cancelling *)

Lemma unawaited_returns {A} (m : M A) (w : World) :
  result_of (unawaited m w) = Returned tt.
Proof. unfold unawaited, result_of. destruct (m w) as [[r w1] t]. reflexivity. Qed.

Lemma released_idem (w : World) : released (released w) = released w.
Proof. reflexivity. Qed.

(** C7.  In every world, with or without a session, [stopNFC] returns
    normally, leaves the controller [Idle] and touches neither the card
    list nor the selection; doing it twice leaves the same world as doing
    it once; and hiding the modal, which is what triggers it, raises
    nothing to React. *)
Theorem stopNFC_safe_and_idempotent (e : Env) (w : World) :
  stopNFC w = (Returned tt, released w, [NfcManager_cancelTechnologyRequest])
  /\ controller_state (world_of (stopNFC w)) = Idle
  /\ result_of ((stopNFC ;; stopNFC) w) = Returned tt
  /\ world_of ((stopNFC ;; stopNFC) w) = world_of (stopNFC w)
  /\ result_of (visible_effect e false w) = Returned tt
  /\ world_of (visible_effect e false (world_of (visible_effect e false w)))
     = world_of (visible_effect e false w).
Proof. repeat split. Qed.

Example stopNFC_when_idle :
  stopNFC initial = (Returned tt, initial, [NfcManager_cancelTechnologyRequest]).
Proof. reflexivity. Qed.

(* ================================================================= *)
(** ** The selection *)

Lemma startNFC_returns (e : Env) (w : World) :
  result_of (startNFC e w) = Returned tt
  /\ cards (world_of (startNFC e w)) = cards w
  /\ selectedCard (world_of (startNFC e w)) = selectedCard w
  /\ filter is_transceive (calls_of (startNFC e w)) = []
  /\ filter is_encodeMessage (calls_of (startNFC e w)) = []
  /\ filter is_host_call (calls_of (startNFC e w)) = [].
Proof.
  run_monad.
  destruct (start_answer e) as [[]|ex1];
    [destruct (requestTechnology_answer e) as [[]|ex2];
     [destruct (getTag_answer e) as [[tag|]|ex3]|]|];
    repeat split.
Qed.

Lemma step_returns (e : Env) (a : Action) (w : World) :
  result_of (step e a w) = Returned tt.
Proof.
  destruct a as [[|]| item | |]; try reflexivity.
  - apply unawaited_returns.
  - unfold step. destruct (selectedCard w) as [card|] eqn:Hsel.
    + rewrite (handleShare_selected e w card Hsel). reflexivity.
    + unfold handleShare, bind, read_selectedCard. rewrite Hsel. reflexivity.
Qed.

Lemma step_selection (e : Env) (a : Action) (w : World) :
  selectedCard (world_of (step e a w)) = selection_after a (selectedCard w).
Proof.
  destruct a as [[|]| item | |]; try reflexivity.
  - unfold step, visible_effect, unawaited, world_of.
    pose proof (startNFC_returns e w) as (_ & _ & Hs & _).
    unfold world_of in Hs. destruct (startNFC e w) as [[r w1] t]. exact Hs.
  - unfold step. destruct (selectedCard w) as [card|] eqn:Hsel.
    + rewrite (handleShare_selected e w card Hsel). unfold world_of; cbn.
      rewrite Hsel. reflexivity.
    + unfold handleShare, bind, read_selectedCard. rewrite Hsel.
      unfold world_of; cbn. rewrite Hsel. reflexivity.
Qed.

Lemma run_cons (e : Env) (a : Action) (script : list (Env * Action)) (w : World) :
  world_of (run ((e, a) :: script) w) = world_of (run script (world_of (step e a w))).
Proof.
  cbn [run]. unfold bind. pose proof (step_returns e a w) as Hr.
  unfold result_of, world_of in *.
  destruct (step e a w) as [[r w1] t]. cbn [fst snd] in *. subst r.
  destruct (run script w1) as [[r2 w2] t2]. reflexivity.
Qed.

(** C8, as the spec words it, fails: a card is chosen and shared, the
    host hides the modal, and the selection is still there; after the
    modal is shown again, confirming the share writes that card again
    without any new choice. *)
Lemma selection_survives_closing :
  let closed :=
    world_of (run [(env_ok, SetVisible true); (env_ok, PressCard ann);
                   (env_ok, PressShare); (env_ok, SetVisible false)] initial) in
  selectedCard closed = Some ann
  /\ controller_state closed = Idle
  /\ calls_of (run [(env_ok, SetVisible true); (env_ok, PressShare)] closed)
     = [NfcManager_start; NfcManager_requestTechnology Ndef_tech;
        NfcManager_getTag;
        Alert_alert "NFC Detected"
          "Another phone is nearby. Choose a card to share.";
        Ndef_encodeMessage (message_of ann);
        NfcManager_transceive [1; 2; 3];
        Alert_alert "Success"
          "Card information has been written to the NFC tag.";
        NfcManager_cancelTechnologyRequest;
        onCardSelected ann; onClose].
Proof. cbv zeta. repeat split. Qed.

(** C8, amended.  The selection is empty when the component mounts and
    is set by choosing a card; nothing else changes it.  In particular
    closing the modal in any way (the host hiding it, the cancel button, a
    completed share) leaves the selection as it was, so once a card has
    been chosen the selection is never empty again while the component
    stays mounted. *)
Theorem selection_only_set_by_choice
        (e : Env) (a : Action) (script : list (Env * Action)) (w : World) :
  selectedCard initial = None
  /\ selectedCard (world_of (mount e true initial)) = None
  /\ selectedCard (world_of (step e a w)) = selection_after a (selectedCard w)
  /\ selectedCard (world_of (step e (SetVisible false) w)) = selectedCard w
  /\ selectedCard (world_of (run script w))
     = fold_left (fun sel ea => selection_after (snd ea) sel) script
                 (selectedCard w).
Proof.
  split; [reflexivity|]. split.
  - unfold mount, bind.
    pose proof (unawaited_returns (fetchCards e) initial) as Hr.
    assert (Hs : selectedCard (world_of (mount_effect e initial)) = None).
    { unfold mount_effect, unawaited, fetchCards, world_of.
      destruct (currentUser e) as [user|]; [|reflexivity].
      unfold bind, ask, setCards.
      destruct (getDocs_answer e (uid user)); reflexivity. }
    unfold mount_effect, result_of, world_of in *.
    destruct (unawaited (fetchCards e) initial) as [[r w1] t].
    cbn [fst snd] in *. subst r.
    pose proof (step_selection e (SetVisible true) w1) as H1.
    unfold step, world_of in H1.
    destruct (visible_effect e true w1) as [[r2 w2] t2].
    cbn [fst snd selection_after] in *. congruence.
  - split; [apply step_selection|]. split; [apply step_selection|].
    revert w. induction script as [|[e' a'] script IH]; intros w; [reflexivity|].
    rewrite run_cons. rewrite IH. rewrite step_selection. reflexivity.
Qed.

(* ================================================================= *)
(** ** Choosing a card *)

(** C9.  Choosing a card makes no call at all (nothing to the NFC
    manager, the encoder, the host or the user) and changes nothing but
    the selection, which becomes the chosen card.  Confirming the share
    is what triggers the write: with a card selected (in particular right
    after choosing it) it hands the encoder the message of that card and
    transmits the bytes the encoder gives; no other action or effect of
    the component encodes or transmits, and neither does confirming with
    nothing selected. *)
Theorem handleCardSelection_only_selects
        (e : Env) (card : CardData) (a : Action) (visible : bool) (w : World) :
  handleCardSelection card w = (Returned tt, select card w, [])
  /\ session (world_of (handleCardSelection card w)) = session w
  /\ cards (world_of (handleCardSelection card w)) = cards w
  /\ match a with
     | PressShare =>
         match selectedCard w with
         | Some chosen =>
             filter is_encodeMessage (calls_of (step e a w))
             = [Ndef_encodeMessage (message_of chosen)]
             /\ filter is_transceive (calls_of (step e a w))
                = match encodeMessage_answer e (message_of chosen) with
                  | Returned (Some bs) => [NfcManager_transceive bs]
                  | _ => []
                  end
         | None =>
             filter is_transceive (calls_of (step e a w)) = []
             /\ filter is_encodeMessage (calls_of (step e a w)) = []
         end
     | _ => filter is_transceive (calls_of (step e a w)) = []
            /\ filter is_encodeMessage (calls_of (step e a w)) = []
     end
  /\ filter is_encodeMessage
       (calls_of (step e PressShare (world_of (handleCardSelection card w))))
     = [Ndef_encodeMessage (message_of card)]
  /\ filter is_transceive
       (calls_of (step e PressShare (world_of (handleCardSelection card w))))
     = match encodeMessage_answer e (message_of card) with
       | Returned (Some bs) => [NfcManager_transceive bs]
       | _ => []
       end
  /\ filter is_transceive (calls_of (mount e visible w)) = []
  /\ (selectedCard w = None ->
      filter is_transceive (calls_of (step e PressShare w)) = []).
Proof.
  split; [reflexivity|]. split; [reflexivity|]. split; [reflexivity|].
  assert (Hstart : forall w0,
             filter is_transceive (calls_of (unawaited (startNFC e) w0)) = []
             /\ filter is_encodeMessage (calls_of (unawaited (startNFC e) w0)) = []).
  { intros w0. pose proof (startNFC_returns e w0) as (_ & _ & _ & Ht & He & _).
    unfold unawaited, calls_of in *. destruct (startNFC e w0) as [[r w1] t].
    split; assumption. }
  assert (Hshare : forall w0 chosen,
             selectedCard w0 = Some chosen ->
             filter is_encodeMessage (calls_of (step e PressShare w0))
             = [Ndef_encodeMessage (message_of chosen)]
             /\ filter is_transceive (calls_of (step e PressShare w0))
                = match encodeMessage_answer e (message_of chosen) with
                  | Returned (Some bs) => [NfcManager_transceive bs]
                  | _ => []
                  end).
  { intros w0 chosen Hsel. unfold step.
    rewrite (handleShare_selected e w0 chosen Hsel).
    unfold calls_of, snd, write_calls, attempt_calls.
    destruct (encodeMessage_answer e (message_of chosen)) as [[bs|]|ex];
      [destruct (transceive_answer e bs) as [r|ex]| |]; split; reflexivity. }
  assert (Hnone : selectedCard w = None ->
                  filter is_transceive (calls_of (step e PressShare w)) = []
                  /\ filter is_encodeMessage (calls_of (step e PressShare w)) = []).
  { intros Hsel. unfold step, handleShare, bind, read_selectedCard.
    rewrite Hsel. split; reflexivity. }
  split; [|split; [|split; [|split]]].
  - destruct a as [[|]| item | |]; [apply Hstart| | | |]; try (split; reflexivity).
    destruct (selectedCard w) as [chosen|] eqn:Hsel.
    + apply Hshare. exact Hsel.
    + apply Hnone. reflexivity.
  - apply (Hshare (world_of (handleCardSelection card w)) card). reflexivity.
  - apply (Hshare (world_of (handleCardSelection card w)) card). reflexivity.
  - unfold mount, bind, mount_effect.
    assert (Hf : forall w0,
               filter is_transceive (calls_of (unawaited (fetchCards e) w0)) = []).
    { intros w0. unfold unawaited, fetchCards, calls_of.
      destruct (currentUser e) as [user|]; [|reflexivity].
      unfold bind, ask, setCards.
      destruct (getDocs_answer e (uid user)); reflexivity. }
    pose proof (unawaited_returns (fetchCards e) w) as Hr.
    specialize (Hf w). unfold result_of, calls_of in *.
    destruct (unawaited (fetchCards e) w) as [[r w1] t].
    cbn [fst snd] in *. subst r.
    assert (Hv : filter is_transceive (snd (visible_effect e visible w1)) = []).
    { destruct visible; [apply Hstart | reflexivity]. }
    destruct (visible_effect e visible w1) as [[r2 w2] t2].
    cbn [snd] in *. rewrite filter_app, Hf, Hv. reflexivity.
  - intros Hsel. apply Hnone. exact Hsel.
Qed.

Lemma handleCardSelection_only_selects_witness :
  selectedCard initial = None
  /\ handleCardSelection ann initial = (Returned tt, select ann initial, [])
  /\ filter is_transceive (calls_of (step env_ok PressShare initial)) = []
  /\ filter is_encodeMessage
       (calls_of (step env_ok PressShare
                    (world_of (handleCardSelection ann initial))))
     = [Ndef_encodeMessage (message_of ann)]
  /\ filter is_transceive
       (calls_of (step env_ok PressShare
                    (world_of (handleCardSelection ann initial))))
     = [NfcManager_transceive [1; 2; 3]].
Proof.
  pose proof (handleCardSelection_only_selects env_ok ann (PressCard ann)
                true initial) as (H1 & _ & _ & _ & H5 & H6 & _ & H8).
  split; [reflexivity|]. split; [exact H1|].
  split; [apply H8; reflexivity|]. split; [exact H5 | exact H6].
Defined.

(* ================================================================= *)
(** ** Starting NFC *)

(** X1.  [startNFC] never throws, and its calls follow the first failure:
    a call is made only if the previous ones fulfilled; the first
    exception is logged with [console.warn] and answered by the alert
    "NFC failed", after which nothing else is called; without a failure
    the user is told a phone is nearby exactly when [getTag] gave a tag,
    and is told nothing when it gave none. *)
Theorem startNFC_calls (e : Env) (w : World) :
  result_of (startNFC e w) = Returned tt
  /\ match start_answer e, requestTechnology_answer e, getTag_answer e with
     | Thrown ex, _, _ =>
         calls_of (startNFC e w)
         = [NfcManager_start; console_warn ex; Alert_alert "Error" "NFC failed"]
     | Returned _, Thrown ex, _ =>
         calls_of (startNFC e w)
         = [NfcManager_start; NfcManager_requestTechnology Ndef_tech;
            console_warn ex; Alert_alert "Error" "NFC failed"]
     | Returned _, Returned _, Thrown ex =>
         calls_of (startNFC e w)
         = [NfcManager_start; NfcManager_requestTechnology Ndef_tech;
            NfcManager_getTag; console_warn ex; Alert_alert "Error" "NFC failed"]
     | Returned _, Returned _, Returned (Some _) =>
         calls_of (startNFC e w)
         = [NfcManager_start; NfcManager_requestTechnology Ndef_tech;
            NfcManager_getTag;
            Alert_alert "NFC Detected"
              "Another phone is nearby. Choose a card to share."]
     | Returned _, Returned _, Returned None =>
         calls_of (startNFC e w)
         = [NfcManager_start; NfcManager_requestTechnology Ndef_tech;
            NfcManager_getTag]
     end.
Proof.
  run_monad.
  destruct (start_answer e) as [[]|ex1];
    [destruct (requestTechnology_answer e) as [[]|ex2];
     [destruct (getTag_answer e) as [[tag|]|ex3]|]|];
    split; reflexivity.
Qed.

(** X2.  [startNFC] never releases the session.  The session is held
    afterwards exactly when it was held before or both [start] and
    [requestTechnology] fulfilled; so when [getTag] throws after the
    session was acquired, the user is told "NFC failed" and the session
    stays held. *)
Theorem startNFC_session (e : Env) (w : World) :
  filter is_release (calls_of (startNFC e w)) = []
  /\ session (world_of (startNFC e w))
     = match start_answer e, requestTechnology_answer e with
       | Returned _, Returned _ => true
       | _, _ => session w
       end
  /\ match start_answer e, requestTechnology_answer e, getTag_answer e with
     | Returned _, Returned _, Thrown ex =>
         controller_state (world_of (startNFC e w)) = Listening
         /\ filter is_alert (calls_of (startNFC e w))
            = [Alert_alert "Error" "NFC failed"]
     | _, _, _ => True
     end.
Proof.
  run_monad.
  destruct (start_answer e) as [[]|ex1];
    [destruct (requestTechnology_answer e) as [[]|ex2];
     [destruct (getTag_answer e) as [[tag|]|ex3]|]|];
    repeat split.
Qed.

Example startNFC_tag_fails :
  startNFC env_tag_fails initial
  = (Returned tt, {| cards := []; selectedCard := None; session := true |},
     [NfcManager_start; NfcManager_requestTechnology Ndef_tech;
      NfcManager_getTag; console_warn (Error "no tag");
      Alert_alert "Error" "NFC failed"]).
Proof. reflexivity. Qed.

(* ================================================================= *)
(** ** Fetching, continued *)

(** X3.  When the read of the store rejects, [fetchCards] rejects with
    the same reason after that one call: the card list, the selection
    and the session are untouched and nothing is shown to the user.  The
    mount effect does not await the fetch, so the rejection reaches
    nobody and mounting goes on. *)
Theorem fetchCards_store_rejects (e : Env) (w : World) (user : User) (ex : Exn) :
  currentUser e = Some user ->
  getDocs_answer e (uid user) = Thrown ex ->
  fetchCards e w = (Thrown ex, w, [getDocs (uid user)])
  /\ mount_effect e w = (Returned tt, w, [getDocs (uid user)])
  /\ filter is_alert (calls_of (mount_effect e w)) = [].
Proof.
  intros Hu Hd.
  assert (H : fetchCards e w = (Thrown ex, w, [getDocs (uid user)])).
  { unfold fetchCards. rewrite Hu. unfold bind, ask. rewrite Hd. reflexivity. }
  unfold mount_effect, unawaited. rewrite H. repeat split.
Qed.

Lemma fetchCards_store_rejects_witness :
  currentUser env_store_down = Some {| uid := lit "u1" |}
  /\ getDocs_answer env_store_down (lit "u1") = Thrown (Error "unavailable")
  /\ fetchCards env_store_down initial
     = (Thrown (Error "unavailable"), initial, [getDocs (lit "u1")]).
Proof.
  split; [reflexivity|]. split; [reflexivity|].
  apply (fetchCards_store_rejects env_store_down initial
           {| uid := lit "u1" |} (Error "unavailable")); reflexivity.
Defined.

(** X4.  A fetch changes nothing but the card list, and it replaces the
    list rather than adding to it: the selection and the session are kept
    on every path, at most one call is made and it is the read of the
    signed-in user's wallet, and the list afterwards is the same from
    whatever list the fetch started. *)
Theorem fetchCards_frame (e : Env) (w w' : World) :
  selectedCard (world_of (fetchCards e w)) = selectedCard w
  /\ session (world_of (fetchCards e w)) = session w
  /\ calls_of (fetchCards e w)
     = match currentUser e with
       | Some user => [getDocs (uid user)]
       | None => []
       end
  /\ (result_of (fetchCards e w) = Returned tt ->
      currentUser e <> None ->
      cards (world_of (fetchCards e w)) = cards (world_of (fetchCards e w'))).
Proof.
  unfold fetchCards.
  destruct (currentUser e) as [user|]; [|repeat split; congruence].
  unfold bind, ask, setCards, world_of, result_of, calls_of.
  destruct (getDocs_answer e (uid user)) as [docs|ex]; cbn [fst snd];
    repeat split; discriminate.
Qed.

Lemma fetchCards_frame_witness :
  result_of (fetchCards env_ok (select ann initial)) = Returned tt
  /\ currentUser env_ok <> None
  /\ cards (world_of (fetchCards env_ok
                        {| cards := [ann]; selectedCard := Some ann;
                           session := true |}))
     = cards (world_of (fetchCards env_ok initial)).
Proof.
  split; [reflexivity|]. split; [discriminate|].
  apply (fetchCards_frame env_ok
           {| cards := [ann]; selectedCard := Some ann; session := true |}
           initial); [reflexivity|discriminate].
Defined.

(* ================================================================= *)
(** ** Runs of the mounted component *)

Lemma step_cards (e : Env) (a : Action) (w : World) :
  cards (world_of (step e a w)) = cards w.
Proof.
  destruct a as [[|]| item | |]; try reflexivity.
  - unfold step, visible_effect, unawaited, world_of.
    pose proof (startNFC_returns e w) as (_ & Hc & _).
    unfold world_of in Hc. destruct (startNFC e w) as [[r w1] t]. exact Hc.
  - unfold step. destruct (selectedCard w) as [card|] eqn:Hsel.
    + rewrite (handleShare_selected e w card Hsel). reflexivity.
    + unfold handleShare, bind, read_selectedCard. rewrite Hsel. reflexivity.
Qed.



(** X6.  Which promises can reject.  Those of [startNFC], [writeNfcTag]
    and [handleShare] always fulfil, whatever the collaborators answer:
    their [try]/[catch] takes every exception of the NFC manager and of
    the encoder.  That of [fetchCards], which has none, rejects exactly
    when a user is signed in and the read of the store rejects, and with
    the same reason. *)
Theorem which_promises_reject
        (e : Env) (selected : CardData) (w : World) (ex : Exn) :
  result_of (startNFC e w) = Returned tt
  /\ result_of (writeNfcTag e selected w) = Returned tt
  /\ result_of (handleShare e w) = Returned tt
  /\ (result_of (fetchCards e w) = Thrown ex
      <-> exists user,
            currentUser e = Some user
            /\ getDocs_answer e (uid user) = Thrown ex).
Proof.
  split; [apply startNFC_returns|].
  split; [rewrite writeNfcTag_eq; reflexivity|].
  split; [exact (step_returns e PressShare w)|].
  unfold fetchCards, result_of.
  destruct (currentUser e) as [user|].
  - unfold bind, ask, setCards.
    destruct (getDocs_answer e (uid user)) as [docs|ex'] eqn:Hd; cbn [fst]; split.
    + discriminate.
    + intros (user' & Hu & Hd'). injection Hu as <-. congruence.
    + intros H. injection H as ->. exists user. split; [reflexivity|exact Hd].
    + intros (user' & Hu & Hd'). injection Hu as <-. congruence.
  - cbn [fst]. split; [discriminate|]. intros (user & Hu & _). discriminate.
Qed.

Lemma which_promises_reject_witness :
  (exists user,
      currentUser env_store_down = Some user
      /\ getDocs_answer env_store_down (uid user) = Thrown (Error "unavailable"))
  /\ result_of (fetchCards env_store_down initial) = Thrown (Error "unavailable")
  /\ result_of (startNFC env_tag_fails initial) = Returned tt.
Proof.
  assert (H : exists user,
             currentUser env_store_down = Some user
             /\ getDocs_answer env_store_down (uid user)
                = Thrown (Error "unavailable")).
  { exists {| uid := lit "u1" |}. split; reflexivity. }
  split; [exact H|]. split.
  - apply (which_promises_reject env_store_down ann initial
             (Error "unavailable")). exact H.
  - apply (which_promises_reject env_tag_fails ann initial (Error "no tag")).
Defined.

Lemma resume_times_settles (e : Env) (w : World) :
  resume_times e 4 NotStarted w
  = (Returned Settled, world_of (startNFC e w), calls_of (startNFC e w)).
Proof.
  cbv [resume_times startNFC_resume startNFC_catch].
  run_monad.
  destruct (start_answer e) as [[]|ex1];
    [destruct (requestTechnology_answer e) as [[]|ex2];
     [destruct (getTag_answer e) as [[tag|]|ex3]|]|]; reflexivity.
Qed.

(** X7.  Hiding does not stop a start that is under way.  Taken in its
    stretches between [await]s, [startNFC] makes the calls and reaches
    the world of the whole function.  When the host hides the modal after
    it has settled, the session is released.  When the host hides the
    modal while it is suspended on [NfcManager.start()], the release
    comes right after the call of [start] and [startNFC] then goes on
    with the very calls it would have made: if [start] and
    [requestTechnology] fulfil, the session is held although the modal is
    hidden. *)
Theorem hiding_does_not_stop_startNFC (e : Env) (w : World) :
  resume_times e 4 NotStarted w
  = (Returned Settled, world_of (startNFC e w), calls_of (startNFC e w))
  /\ session (world_of (hide_after_start e w)) = false
  /\ calls_of (hide_after_start e w)
     = calls_of (startNFC e w) ++ [NfcManager_cancelTechnologyRequest]
  /\ result_of (hide_during_start e w) = Returned Settled
  /\ calls_of (hide_during_start e w)
     = NfcManager_start :: NfcManager_cancelTechnologyRequest
       :: tl (calls_of (startNFC e w))
  /\ session (world_of (hide_during_start e w))
     = match start_answer e, requestTechnology_answer e with
       | Returned _, Returned _ => true
       | _, _ => false
       end
  /\ cards (world_of (hide_during_start e w)) = cards w
  /\ selectedCard (world_of (hide_during_start e w)) = selectedCard w.
Proof.
  split; [apply resume_times_settles|].
  split; [|split].
  - unfold hide_after_start, bind. rewrite resume_times_settles. reflexivity.
  - unfold hide_after_start, bind. rewrite resume_times_settles.
    unfold calls_of. cbn. rewrite ?app_nil_r. reflexivity.
  - cbv [hide_during_start resume_times startNFC_resume startNFC_catch].
    run_monad.
    destruct (start_answer e) as [[]|ex1];
      [destruct (requestTechnology_answer e) as [[]|ex2];
       [destruct (getTag_answer e) as [[tag|]|ex3]|]|]; repeat split.
Qed.

Example hide_during_start_holds_session :
  hide_during_start env_ok initial
  = (Returned Settled,
     {| cards := []; selectedCard := None; session := true |},
     [NfcManager_start; NfcManager_cancelTechnologyRequest;
      NfcManager_requestTechnology Ndef_tech; NfcManager_getTag;
      Alert_alert "NFC Detected"
        "Another phone is nearby. Choose a card to share."]).
Proof. reflexivity. Qed.



(* ================================================================= *)
(** ** Sharing, continued *)

(** X9.  Confirming the share never starts NFC or requests the session,
    and it does not look at whether a session is held: right after a
    completed share, when the session has been released and the modal is
    still shown, a second confirmation encodes and transmits again. *)
Theorem share_does_not_acquire (e1 e2 : Env) (w : World) (card : CardData) :
  selectedCard w = Some card ->
  let w1 := world_of (handleShare e1 w) in
  filter is_acquire (calls_of (handleShare e1 w)) = []
  /\ session w1 = false
  /\ calls_of (handleShare e2 w1)
     = write_calls e2 card ++ [onCardSelected card; onClose]
  /\ filter is_acquire (calls_of (handleShare e2 w1)) = [].
Proof.
  intros Hsel. cbv zeta.
  assert (Ha : forall e,
             filter is_acquire
               (write_calls e card ++ [onCardSelected card; onClose]) = []).
  { intros e. unfold write_calls, attempt_calls.
    destruct (encodeMessage_answer e (message_of card)) as [[bs|]|ex];
      [destruct (transceive_answer e bs) as [r|ex]| |]; reflexivity. }
  rewrite (handleShare_selected e1 w card Hsel).
  unfold world_of, calls_of. cbn [fst snd].
  rewrite (handleShare_selected e2 (released w) card Hsel).
  cbn [fst snd]. rewrite !Ha. repeat split.
Qed.

Lemma share_does_not_acquire_witness :
  selectedCard (select ann initial) = Some ann
  /\ session (world_of (handleShare env_ok (select ann initial))) = false
  /\ calls_of (handleShare env_ok
                 (world_of (handleShare env_ok (select ann initial))))
     = write_calls env_ok ann ++ [onCardSelected ann; onClose].
Proof.
  pose proof (share_does_not_acquire env_ok env_ok (select ann initial) ann
                eq_refl) as (_ & Hs & Hc & _).
  split; [reflexivity|]. split; [exact Hs | exact Hc].
Defined.

(** X10.  Every write attempt shows exactly one alert, the one of its
    outcome: "Success" only when the encoder gave bytes and the
    transmission fulfilled.  [console.error] is called exactly when the
    encoder or the transmission threw, and never when the encoder merely
    gave no bytes. *)
Theorem writeNfcTag_one_alert (e : Env) (selected : CardData) (w : World) :
  filter is_alert (calls_of (writeNfcTag e selected w))
  = [alert_of (write_outcome e selected)]
  /\ List.length (filter is_console_error (calls_of (writeNfcTag e selected w)))
     = match encodeMessage_answer e (message_of selected) with
       | Thrown _ => 1%nat
       | Returned None => 0%nat
       | Returned (Some bs) =>
           match transceive_answer e bs with
           | Thrown _ => 1%nat
           | Returned _ => 0%nat
           end
       end.
Proof.
  rewrite writeNfcTag_eq.
  unfold calls_of, snd, write_calls, attempt_calls, write_outcome.
  destruct (encodeMessage_answer e (message_of selected)) as [[bs|]|ex];
    [destruct (transceive_answer e bs) as [r|ex]| |]; split; reflexivity.
Qed.

(** X11.  Of several choices the last one counts: after choosing one
    card and then another, confirming the share encodes, transmits and
    reports to the host the second card only. *)
Theorem last_choice_is_shared (e1 e2 e3 : Env) (first second : CardData)
        (w : World) :
  calls_of (run [(e1, PressCard first); (e2, PressCard second);
                 (e3, PressShare)] w)
  = write_calls e3 second ++ [onCardSelected second; onClose]
  /\ filter is_encodeMessage
       (calls_of (run [(e1, PressCard first); (e2, PressCard second);
                       (e3, PressShare)] w))
     = [Ndef_encodeMessage (message_of second)].
Proof.
  assert (H : calls_of (run [(e1, PressCard first); (e2, PressCard second);
                             (e3, PressShare)] w)
              = write_calls e3 second ++ [onCardSelected second; onClose]).
  { cbn [run step]. unfold bind at 1 2. cbn [handleCardSelection setSelectedCard].
    unfold bind at 1.
    rewrite (handleShare_selected e3 _ second) by reflexivity.
    unfold ret, calls_of. cbn [snd app]. rewrite app_nil_r. reflexivity. }
  rewrite H. split; [reflexivity|].
  unfold write_calls, attempt_calls.
  destruct (encodeMessage_answer e3 (message_of second)) as [[bs|]|ex];
    [destruct (transceive_answer e3 bs) as [r|ex]| |]; reflexivity.
Qed.

(** X12.  Mounting hidden runs the visibility effect all the same: the
    only NFC call is one [cancelTechnologyRequest], made although no
    session was ever requested, and NFC is not started.  Mounting shown
    never releases. *)
Theorem mount_hidden_releases (e : Env) :
  filter is_session_call (calls_of (mount e false initial))
  = [NfcManager_cancelTechnologyRequest]
  /\ controller_state (world_of (mount e false initial)) = Idle
  /\ filter is_release (calls_of (mount e true initial)) = [].
Proof.
  unfold mount, mount_effect, bind.
  assert (Hf : exists wf tf,
             unawaited (fetchCards e) initial = (Returned tt, wf, tf)
             /\ filter is_session_call tf = []
             /\ filter is_release tf = []).
  { unfold unawaited, fetchCards.
    destruct (currentUser e) as [user|].
    - unfold bind, ask, setCards.
      destruct (getDocs_answer e (uid user)) as [docs|ex];
        eexists; eexists; repeat split.
    - eexists; eexists; repeat split. }
  destruct Hf as (wf & tf & Hf & Hs & Hr). rewrite Hf.
  split; [|split].
  - unfold visible_effect, unawaited, stopNFC, cancelTechnologyRequest, calls_of.
    cbn [snd]. rewrite filter_app, Hs. reflexivity.
  - reflexivity.
  - unfold visible_effect, unawaited, calls_of.
    pose proof (startNFC_returns e wf) as _.
    assert (Hn : filter is_release (calls_of (startNFC e wf)) = []).
    { run_monad.
      destruct (start_answer e) as [[]|ex1];
        [destruct (requestTechnology_answer e) as [[]|ex2];
         [destruct (getTag_answer e) as [[tag|]|ex3]|]|]; reflexivity. }
    unfold calls_of in Hn. destruct (startNFC e wf) as [[r w1] t].
    cbn [snd] in *. rewrite filter_app, Hr, Hn. reflexivity.
Qed.

(* ================================================================= *)
(** ** The payload text *)

(** X13.  Different cards give different payload texts: a difference
    in any field, in the category or in the presence of the secondary
    number shows in what is transmitted. *)
Theorem encode_card_injective (a b : CardData) :
  a <> b -> encode_card a <> encode_card b.
Proof.
  intros Hne Heq. apply Hne.
  pose proof (decode_stringify_any_order a (card_props a) (Permutation_refl _)) as Ha.
  pose proof (decode_stringify_any_order b (card_props b) (Permutation_refl _)) as Hb.
  unfold encode_card in Heq. rewrite Heq in Ha. congruence.
Qed.

Lemma encode_card_injective_witness :
  ann <> odd_card /\ encode_card ann <> encode_card odd_card.
Proof.
  assert (H : ann <> odd_card) by (intros H; discriminate H).
  split; [exact H|]. apply (encode_card_injective ann odd_card H).
Defined.

Lemma plain_cons (c : N) (s : jsstring) :
  plain c = true -> clean s -> clean (c :: s).
Proof.
  unfold plain, clean. intros Hp [Hw Hn].
  apply andb_true_iff in Hp. destruct Hp as [Hp Hl].
  apply andb_true_iff in Hp. destruct Hp as [H32 Hh].
  apply negb_true_iff in Hh, Hl.
  split.
  - cbn [well_formed]. rewrite Hh, Hl, Hw. reflexivity.
  - cbn [no_c0_control forallb]. rewrite H32. exact Hn.
Qed.

Lemma plain_app (a s : jsstring) :
  forallb plain a = true -> clean s -> clean (a ++ s).
Proof.
  induction a as [|c a IH]; intros Ha Hs; [exact Hs|].
  cbn [forallb] in Ha. apply andb_true_iff in Ha. destruct Ha as [Hc Ha].
  cbn [app]. apply plain_cons; [exact Hc | apply IH; assumption].
Qed.

Lemma clean_app (a b : jsstring) : clean a -> clean b -> clean (a ++ b).
Proof.
  unfold clean. intros [Hwa Hna] [Hwb Hnb]. split.
  - clear Hna Hnb. revert Hwa.
    induction a as [ | c | c d s IHs IHd] using jsstring_pair_ind.
    + intros _. exact Hwb.
    + cbn [well_formed app]. destruct (JSON.is_high_surrogate c); [discriminate|].
      intros H. rewrite andb_true_r in H. rewrite H, Hwb. reflexivity.
    + cbn [app]. cbn [well_formed].
      destruct (JSON.is_high_surrogate c).
      * intros H. apply andb_true_iff in H. destruct H as [Hd Hs].
        rewrite Hd. cbn [andb]. apply IHs. exact Hs.
      * intros H. apply andb_true_iff in H. destruct H as [Hc Hds].
        rewrite Hc. cbn [andb]. apply IHd. exact Hds.
  - unfold no_c0_control in *. rewrite forallb_app, Hna, Hnb. reflexivity.
Qed.

Lemma hex_digit_plain (d : N) : d < 16 -> plain (JSON.hex_digit d) = true.
Proof.
  intros Hd. unfold plain, JSON.hex_digit, JSON.is_high_surrogate,
    JSON.is_low_surrogate.
  destruct (N.ltb_spec d 10).
  - assert (H1 : (32 <=? 48 + d) = true) by (apply N.leb_le; lia).
    assert (H2 : (55296 <=? 48 + d) = false) by (apply N.leb_gt; lia).
    assert (H3 : (56320 <=? 48 + d) = false) by (apply N.leb_gt; lia).
    rewrite H1, H2, H3. reflexivity.
  - assert (H1 : (32 <=? 87 + d) = true) by (apply N.leb_le; lia).
    assert (H2 : (55296 <=? 87 + d) = false) by (apply N.leb_gt; lia).
    assert (H3 : (56320 <=? 87 + d) = false) by (apply N.leb_gt; lia).
    rewrite H1, H2, H3. reflexivity.
Qed.

Lemma UnicodeEscape_plain (c : N) : forallb plain (JSON.UnicodeEscape c) = true.
Proof.
  unfold JSON.UnicodeEscape. cbn [forallb].
  rewrite !hex_digit_plain by (apply N.mod_lt; lia). reflexivity.
Qed.

Lemma quote_unit_plain (c : N) : forallb plain (JSON.quote_unit c) = true.
Proof.
  unfold JSON.quote_unit.
  destruct (N.eqb_spec c 8); [reflexivity|].
  destruct (N.eqb_spec c 9); [reflexivity|].
  destruct (N.eqb_spec c 10); [reflexivity|].
  destruct (N.eqb_spec c 12); [reflexivity|].
  destruct (N.eqb_spec c 13); [reflexivity|].
  destruct (N.eqb_spec c 34); [reflexivity|].
  destruct (N.eqb_spec c 92); [reflexivity|].
  destruct (N.ltb_spec c 32) as [Hlt|Hge]; cbn [orb].
  - apply UnicodeEscape_plain.
  - destruct (JSON.is_high_surrogate c) eqn:Hh; cbn [orb];
      [apply UnicodeEscape_plain|].
    destruct (JSON.is_low_surrogate c) eqn:Hl; [apply UnicodeEscape_plain|].
    cbn [forallb]. unfold plain. rewrite Hh, Hl.
    assert (H : (32 <=? c) = true) by (apply N.leb_le; exact Hge).
    rewrite H. reflexivity.
Qed.

Lemma pair_clean (c d : N) (s : jsstring) :
  JSON.is_high_surrogate c = true -> JSON.is_low_surrogate d = true ->
  clean s -> clean (c :: d :: s).
Proof.
  intros Hc Hd [Hw Hn].
  assert (Rc : 55296 <= c < 57344) by (apply surrogate_lt; rewrite Hc; reflexivity).
  assert (Rd : 55296 <= d < 57344)
    by (apply surrogate_lt; rewrite Hd; apply orb_true_r).
  split.
  - cbn [well_formed]. rewrite Hc, Hd, Hw. reflexivity.
  - cbn [no_c0_control forallb].
    assert (H1 : (32 <=? c) = true) by (apply N.leb_le; lia).
    assert (H2 : (32 <=? d) = true) by (apply N.leb_le; lia).
    rewrite H1, H2. exact Hn.
Qed.

Lemma quote_body_clean (s rest : jsstring) :
  clean rest -> clean (JSON.quote_body s ++ rest).
Proof.
  intros Hr.
  induction s as [ | c | c d s IHs IHd] using jsstring_pair_ind.
  - exact Hr.
  - cbn [JSON.quote_body].
    destruct (JSON.is_high_surrogate c);
      rewrite ?app_nil_r; apply plain_app; auto using quote_unit_plain.
  - change (JSON.quote_body (c :: d :: s)) with
      (if JSON.is_high_surrogate c then
         if JSON.is_low_surrogate d then c :: d :: JSON.quote_body s
         else JSON.quote_unit c ++ JSON.quote_body (d :: s)
       else JSON.quote_unit c ++ JSON.quote_body (d :: s)).
    destruct (JSON.is_high_surrogate c) eqn:Hc.
    + destruct (JSON.is_low_surrogate d) eqn:Hd.
      * cbn [app]. apply pair_clean; assumption.
      * rewrite <- app_assoc. apply plain_app; auto using quote_unit_plain.
    + rewrite <- app_assoc. apply plain_app; auto using quote_unit_plain.
Qed.

Lemma Quote_clean (s rest : jsstring) :
  clean rest -> clean (JSON.QuoteJSONString s ++ rest).
Proof.
  intros Hr. unfold JSON.QuoteJSONString. cbn [app]. rewrite <- app_assoc.
  apply plain_cons; [reflexivity|]. apply quote_body_clean.
  cbn [app]. apply plain_cons; [reflexivity | exact Hr].
Qed.

Lemma join_members_clean (kvs : list (jsstring * jsstring)) (rest : jsstring) :
  clean rest -> clean (JSON.join_comma (map member_text kvs) ++ rest).
Proof.
  intros Hr. induction kvs as [|kv kvs IH]; [exact Hr|].
  assert (Hm : forall r, clean r -> clean (member_text kv ++ r)).
  { intros r Hc. unfold member_text. rewrite <- app_assoc. apply Quote_clean.
    cbn [app]. apply plain_cons; [reflexivity|]. apply Quote_clean. exact Hc. }
  destruct kvs as [|kv' kvs].
  - cbn [map JSON.join_comma]. apply Hm. exact Hr.
  - change (JSON.join_comma (map member_text (kv :: kv' :: kvs)))
      with (member_text kv ++ 44 :: JSON.join_comma (map member_text (kv' :: kvs))).
    rewrite <- app_assoc. apply Hm. cbn [app].
    apply plain_cons; [reflexivity | exact IH].
Qed.

Lemma stringify_clean (o : obj) : clean (JSON.stringify o).
Proof.
  unfold JSON.stringify, JSON.SerializeJSONObject. rewrite members_written.
  apply plain_cons; [reflexivity|]. apply join_members_clean.
  split; reflexivity.
Qed.

(** X14.  Whatever the fields of the card hold (line feeds, quotes,
    lone surrogates), the payload text given to [Ndef.textRecord] has no
    code unit below U+0020 and is well-formed UTF-16: every surrogate in
    it is half of a pair, so the text can be put in UTF-8 without loss.
    Nothing is said of U+007F and of U+0080 to U+009F, which are copied
    as they are. *)
Theorem payload_text_is_well_formed (selected : CardData) :
  well_formed (encode_card selected) = true
  /\ no_c0_control (encode_card selected) = true
  /\ message_of selected = [TextRecord (encode_card selected)].
Proof.
  destruct (stringify_clean (card_props selected)) as [Hw Hn].
  split; [exact Hw|]. split; [exact Hn | reflexivity].
Qed.

Example odd_card_payload :
  well_formed (firstName odd_card) = false
  /\ no_c0_control (id odd_card) = false
  /\ well_formed (encode_card odd_card) = true
  /\ no_c0_control (encode_card odd_card) = true.
Proof. repeat split. Qed.

Example delete_is_copied :
  encode_card {| id := [127; 133; 155]; firstName := []; lastName := [];
                 type := Work; phone := []; workNumber := None |}
  = lit_json "{'id':'" ++ [127; 133; 155]
    ++ lit_json "','firstName':'','lastName':'','type':'Work','phone':''}".
Proof. vm_compute. reflexivity. Qed.

(* ================================================================= *)
(** ** The list of the modal *)

Lemma mount_cards (e : Env) (visible : bool) (w : World) :
  cards (world_of (mount e visible w)) = cards (world_of (mount_effect e w))
  /\ selectedCard (world_of (mount e visible w))
     = selectedCard (world_of (mount_effect e w)).
Proof.
  unfold mount, bind.
  pose proof (unawaited_returns (fetchCards e) w) as Hr.
  unfold mount_effect, result_of, world_of in *.
  destruct (unawaited (fetchCards e) w) as [[r w1] t].
  cbn [fst snd] in *. subst r.
  pose proof (step_cards e (SetVisible visible) w1) as Hc.
  pose proof (step_selection e (SetVisible visible) w1) as Hs.
  unfold step, world_of in Hc, Hs.
  destruct (visible_effect e visible w1) as [[r2 w2] t2].
  cbn [fst snd] in *. destruct visible; split; assumption.
Qed.

(** X15.  From the store to the tag: after mounting with a store that
    answers, the list shows one row per document, keyed by the document
    keys in order.  Pressing the row of a document and confirming encodes
    one message whose text decodes to that document's data with the
    document key as [id], and reports that same card to the host. *)
Theorem fetched_row_is_shared
        (e e2 e3 : Env) (visible : bool) (user : User)
        (docs : list QueryDocumentSnapshot) (n : nat)
        (doc : QueryDocumentSnapshot) :
  currentUser e = Some user ->
  getDocs_answer e (uid user) = Returned docs ->
  nth_error docs n = Some doc ->
  let w1 := world_of (mount e visible initial) in
  let card := spread_with_id (doc_data doc) (doc_id doc) in
  map row_key (render_rows w1) = map doc_id docs
  /\ nth_error (render_rows w1) n
     = Some {| row_key := doc_id doc; row_text := item_text (doc_data doc);
               row_onPress := PressCard card |}
  /\ filter is_encodeMessage
       (calls_of (run [(e2, PressCard card); (e3, PressShare)] w1))
     = [Ndef_encodeMessage [TextRecord (encode_card card)]]
  /\ decode_card (encode_card card) = Some card
  /\ filter is_host_call
       (calls_of (run [(e2, PressCard card); (e3, PressShare)] w1))
     = [onCardSelected card; onClose].
Proof.
  intros Hu Hd Hn. cbv zeta.
  assert (Hc : cards (world_of (mount e visible initial))
               = map (fun d => spread_with_id (doc_data d) (doc_id d)) docs).
  { rewrite (proj1 (mount_cards e visible initial)).
    unfold mount_effect, unawaited.
    rewrite (fetchCards_signed_in e initial user docs Hu Hd). reflexivity. }
  set (w1 := world_of (mount e visible initial)) in *.
  set (card := spread_with_id (doc_data doc) (doc_id doc)).
  assert (Hrun : calls_of (run [(e2, PressCard card); (e3, PressShare)] w1)
                 = write_calls e3 card ++ [onCardSelected card; onClose]).
  { cbn [run step]. unfold bind at 1. cbn [handleCardSelection setSelectedCard].
    unfold bind at 1.
    rewrite (handleShare_selected e3 _ card) by reflexivity.
    unfold ret, calls_of. cbn [snd app]. rewrite app_nil_r. reflexivity. }
  split; [|split; [|split; [|split]]].
  - unfold render_rows. rewrite Hc, !map_map. reflexivity.
  - unfold render_rows. rewrite Hc, map_map.
    rewrite (map_nth_error _ _ _ Hn). reflexivity.
  - rewrite Hrun. unfold write_calls, attempt_calls.
    destruct (encodeMessage_answer e3 (message_of card)) as [[bs|]|ex];
      [destruct (transceive_answer e3 bs) as [r|ex]| |]; reflexivity.
  - apply decode_stringify_any_order. apply Permutation_refl.
  - rewrite Hrun. unfold write_calls, attempt_calls.
    destruct (encodeMessage_answer e3 (message_of card)) as [[bs|]|ex];
      [destruct (transceive_answer e3 bs) as [r|ex]| |]; reflexivity.
Qed.

Lemma fetched_row_is_shared_witness :
  currentUser env_ok = Some {| uid := lit "u1" |}
  /\ getDocs_answer env_ok (lit "u1") = Returned sample_docs
  /\ nth_error sample_docs 1
     = Some {| doc_id := lit "docB";
               doc_data := {| id := lit "1"; firstName := lit "Bo";
                              lastName := lit "Ray"; type := Student;
                              phone := lit "555-2";
                              workNumber := Some (lit "555-3") |} |}
  /\ map row_key (render_rows (world_of (mount env_ok true initial)))
     = [lit "docA"; lit "docB"].
Proof.
  split; [reflexivity|]. split; [reflexivity|]. split; [reflexivity|].
  apply (fetched_row_is_shared env_ok env_ok env_write_fails true
           {| uid := lit "u1" |} sample_docs 1 _ eq_refl eq_refl eq_refl).
Defined.

Lemma item_text_split (item : CardData) :
  item_text item
  = (firstName item ++ lit " " ++ lastName item ++ lit " (")
    ++ (type_name (type item) ++ lit ")").
Proof. unfold item_text. rewrite <- !app_assoc. reflexivity. Qed.

(** X16.  The text of a row tells the category: two cards whose rows
    read the same have the same category, whatever their names are.
    (The text does not tell the cards apart: it shows neither the id nor
    a phone number.) *)
Theorem item_text_tells_category (a b : CardData) :
  item_text a = item_text b -> type a = type b.
Proof.
  intros H. rewrite !item_text_split in H.
  apply (f_equal (@rev N)) in H. rewrite !rev_app_distr in H.
  destruct (type a), (type b); try reflexivity; exfalso;
    cbv [type_name lit list_ascii_of_string map N_of_ascii N_of_digits app rev]
      in H;
    cbn [N.add N.mul Pos.add Pos.mul Pos.succ] in H;
    discriminate H.
Qed.

Lemma item_text_tells_category_witness :
  ann <> ann_again
  /\ item_text ann = item_text ann_again
  /\ type ann = type ann_again.
Proof.
  split; [intros H; discriminate H|]. split; [reflexivity|].
  apply (item_text_tells_category ann ann_again). reflexivity.
Defined.
